(** * Verification of the SCALE text codec, metadata envelope, extrinsic
      envelope and decorators of the polkadot-js api packages.

    The development follows the TypeScript sources:
    - [Text] (packages/types, primitive/Text.ts),
    - [Metadata] (packages/types/src/metadata/Metadata.ts),
    - [GenericExtrinsic] (packages/types, extrinsic/Extrinsic.ts),
    - [injectFunctions] (packages/api-derive/src/bundle.ts),
    - [fromMetadata] (api-metadata, extrinsics/fromMetadata).

    Conventions.  A JavaScript number that holds an integer is a [Z]; a
    [Uint8Array] is a [list Z] whose elements are bytes; a JavaScript
    string is the list of its UTF-16 code units ([JSString]); names of
    modules, sections and methods are plain [string]s.  A thrown
    exception is the left injection of a sum. *)

From Stdlib Require Import ZArith List Lia Bool String Ascii.
From stdpp Require Import base list strings gmap.
Import ListNotations.
Local Open Scope Z_scope.

(** ** Byte arrays *)

Abbreviation U8a := (list Z).

(** [a.length] as a JavaScript number. *)
Definition len {A} (a : list A) : Z := Z.of_nat (length a).

(** [a.subarray(start, end)] (also [a.slice]) for [0 <= start]: the elements
    from [start] up to, not including, [end], cut at the end of the array. *)
Definition subarray {A} (a : list A) (start stop : Z) : list A :=
  take (Z.to_nat (stop - start)) (drop (Z.to_nat start) a).

(** [a[i]] read as a number in an integer context: [undefined] (out of
    range) behaves as [0] under [&], [new BN(..)] and the like. *)
Definition byteAt (a : U8a) (i : Z) : Z := nth (Z.to_nat i) a 0.

(** Every element is a byte. *)
Definition isBytes (a : U8a) : Prop := Forall (fun b => 0 <= b < 256) a.

(** ** The compact codec of [@polkadot/util] *)

Module Compact.

(** [u8aToBn(bytes, true)]: the little-endian value of a byte array. *)
Fixpoint u8aToBn (a : U8a) : Z :=
  match a with
  | [] => 0
  | b :: rest => b + 256 * u8aToBn rest
  end.

(** [bnToU8a(n, 8 * k, true)]: the [k] low bytes of [n], little-endian. *)
Fixpoint bnToU8a (k : nat) (n : Z) : U8a :=
  match k with
  | O => []
  | S k' => n mod 256 :: bnToU8a k' (n / 256)
  end.

(** The number of bytes [bnToU8a(n)] produces without a bit length: as
    many as the value needs, one for zero. *)
Definition byteLength (n : Z) : nat :=
  if n <=? 0 then 1%nat else Z.to_nat (Z.log2 n / 8 + 1).

(** Modelled from the spec: [compactToU8a] of [@polkadot/util], which is
    not among the sources.  "first-byte low 2 bits select mode
    {single-byte (6-bit value), two-byte (14-bit value, little-endian),
    four-byte (30-bit value, little-endian), big-integer (byte-count in
    top 6 bits of first byte, followed by that many little-endian
    bytes)}"; the byte count of the big-integer mode is stored less four,
    as SCALE has it. *)
Definition compactToU8a (n : Z) : U8a :=
  if n <=? 63 then [Z.shiftl n 2]
  else if n <=? 16383 then bnToU8a 2 (Z.shiftl n 2 + 1)
  else if n <=? 1073741823 then bnToU8a 4 (Z.shiftl n 2 + 2)
  else
    let k := byteLength n in
    ((Z.shiftl (Z.of_nat k - 4) 2 + 3) mod 256) :: bnToU8a k n.

(** Modelled from the spec: [compactAddLength] of [@polkadot/util].
    "prefixes a byte sequence with its compact-encoded length". *)
Definition compactAddLength (a : U8a) : U8a :=
  compactToU8a (len a) ++ a.

(** Modelled from the spec: [compactFromU8a] of [@polkadot/util], the
    inverse of [compactToU8a]; it returns the number of bytes of the
    prefix and the value.  Bytes that the array does not have are read as
    absent ([slice] and [subarray] cut at the end of the array), so the
    function itself never throws: a prefix that is longer than the array
    is caught by the bounds check of the caller. *)
Definition compactFromU8a (a : U8a) : Z * Z :=
  let b0 := byteAt a 0 in
  let flag := Z.land b0 3 in
  if flag =? 0 then (1, Z.shiftr b0 2)
  else if flag =? 1 then (2, Z.shiftr (u8aToBn (subarray a 0 2)) 2)
  else if flag =? 2 then (4, Z.shiftr (u8aToBn (subarray a 0 4)) 2)
  else
    let offset := 1 + (Z.shiftr b0 2 + 4) in
    (offset, u8aToBn (subarray a 1 offset)).

End Compact.

(** ** Strings and the text utilities of [@polkadot/util] *)

(** A JavaScript string: its UTF-16 code units. *)
Abbreviation JSString := (list Z).

(** A string literal of ASCII characters as a JavaScript string. *)
Definition js (s : string) : JSString :=
  map (fun c => Z.of_N (N_of_ascii c)) (list_ascii_of_string s).

(** The utilities that turn strings into bytes and back.  They belong to
    [@polkadot/util] and to the platform ([TextEncoder], [TextDecoder]) and
    are not among the sources: the codecs are stated over any
    implementation of them, and [Utf8] below is the one the platform has,
    the "UTF-8-equivalent" encoding and decoding of the spec. *)
Class TextUtil := {
  stringToU8a : JSString -> U8a;
  u8aToString : U8a -> JSString;
  isHex : JSString -> bool;
  hexToU8a : JSString -> U8a
}.

(** Modelled from the spec: [u8aToHex] of [@polkadot/util], the "hex
    projection" of a byte array, which is not among the sources: [0x] and
    two lower-case digits for every byte. *)
Definition hexDigit (d : Z) : Z := if d <? 10 then 48 + d else 87 + d.

Definition u8aToHex (a : U8a) : JSString :=
  js "0x" ++ flat_map (fun b => [hexDigit (b / 16); hexDigit (b mod 16)]) a.

Module Utf8.

Definition REPLACEMENT : Z := 0xFFFD.

Definition isHigh (c : Z) : bool := (0xD800 <=? c) && (c <=? 0xDBFF).
Definition isLow (c : Z) : bool := (0xDC00 <=? c) && (c <=? 0xDFFF).

(** The UTF-8 bytes of one scalar value. *)
Definition encodeScalar (c : Z) : U8a :=
  if c <? 0x80 then [c]
  else if c <? 0x800 then [0xC0 + c / 64; 0x80 + c mod 64]
  else if c <? 0x10000 then
    [0xE0 + c / 4096; 0x80 + (c / 64) mod 64; 0x80 + c mod 64]
  else
    [0xF0 + c / 262144; 0x80 + (c / 4096) mod 64;
     0x80 + (c / 64) mod 64; 0x80 + c mod 64].

(** [new TextEncoder().encode(s)]: surrogate pairs are joined, a lone
    surrogate is encoded as U+FFFD. *)
Fixpoint encode (s : JSString) : U8a :=
  match s with
  | [] => []
  | c :: rest =>
      if isHigh c then
        match rest with
        | d :: rest' =>
            if isLow d
            then encodeScalar (0x10000 + (c - 0xD800) * 0x400 + (d - 0xDC00))
                   ++ encode rest'
            else encodeScalar REPLACEMENT ++ encode rest
        | [] => encodeScalar REPLACEMENT
        end
      else if isLow c then encodeScalar REPLACEMENT ++ encode rest
      else encodeScalar c ++ encode rest
  end.

(** The code units of one scalar value. *)
Definition units (c : Z) : JSString :=
  if c <? 0x10000 then [c]
  else [0xD800 + (c - 0x10000) / 0x400; 0xDC00 + (c - 0x10000) mod 0x400].

(** The UTF-8 decoder of the Encoding standard: [needed] continuation
    bytes are still expected for the scalar value [cp], the next one
    within [lo..hi]; a byte that does not fit yields U+FFFD and, when it
    was read as a continuation byte, is read again as a first byte. *)
Fixpoint decodeFrom (needed : nat) (cp lo hi : Z) (a : U8a) : JSString :=
  match a with
  | [] => match needed with O => [] | _ => [REPLACEMENT] end
  | b :: rest =>
      let first :=
        if b <=? 0x7F then b :: decodeFrom 0 0 0x80 0xBF rest
        else if (0xC2 <=? b) && (b <=? 0xDF)
        then decodeFrom 1 (b - 0xC0) 0x80 0xBF rest
        else if (0xE0 <=? b) && (b <=? 0xEF)
        then decodeFrom 2 (b - 0xE0)
               (if b =? 0xE0 then 0xA0 else 0x80)
               (if b =? 0xED then 0x9F else 0xBF) rest
        else if (0xF0 <=? b) && (b <=? 0xF4)
        then decodeFrom 3 (b - 0xF0)
               (if b =? 0xF0 then 0x90 else 0x80)
               (if b =? 0xF4 then 0x8F else 0xBF) rest
        else REPLACEMENT :: decodeFrom 0 0 0x80 0xBF rest in
      match needed with
      | O => first
      | S n =>
          if (lo <=? b) && (b <=? hi) then
            let cp' := cp * 64 + (b - 0x80) in
            match n with
            | O => units cp' ++ decodeFrom 0 0 0x80 0xBF rest
            | _ => decodeFrom n cp' 0x80 0xBF rest
            end
          else REPLACEMENT :: first
      end
  end.

(** [new TextDecoder('utf-8').decode(a)]: a leading byte order mark is
    dropped. *)
Definition decode (a : U8a) : JSString :=
  match a with
  | 0xEF :: 0xBB :: 0xBF :: rest => decodeFrom 0 0 0x80 0xBF rest
  | _ => decodeFrom 0 0 0x80 0xBF a
  end.

(** The value of a hexadecimal digit, if it is one. *)
Definition hexValue (c : Z) : option Z :=
  if (48 <=? c) && (c <=? 57) then Some (c - 48)
  else if (97 <=? c) && (c <=? 102) then Some (c - 87)
  else if (65 <=? c) && (c <=? 70) then Some (c - 55)
  else None.

Fixpoint hexPairs (s : JSString) : option U8a :=
  match s with
  | [] => Some []
  | h :: l :: rest =>
      match hexValue h, hexValue l, hexPairs rest with
      | Some x, Some y, Some a => Some (16 * x + y :: a)
      | _, _, _ => None
      end
  | _ => None
  end.

(** [isHex(s)]: [0x] and an even number of hexadecimal digits. *)
Definition isHexString (s : JSString) : bool :=
  match s with
  | 48 :: 120 :: digits => match hexPairs digits with Some _ => true | None => false end
  | _ => false
  end.

Definition hexToBytes (s : JSString) : U8a :=
  match s with
  | 48 :: 120 :: digits => match hexPairs digits with Some a => a | None => [] end
  | _ => []
  end.

(** Strings of ASCII characters, which the codec keeps byte for unit. *)
Definition isAscii (s : JSString) : Prop := Forall (fun c => 0 <= c < 128) s.

#[global] Instance util : TextUtil := {
  stringToU8a := encode;
  u8aToString := decode;
  isHex := isHexString;
  hexToU8a := hexToBytes
}.

End Utf8.

(** ** Errors *)

(** [BN.toNumber()]: a number up to 53 bits, an assertion failure above. *)
Inductive Error :=
| NotSafeInteger (n : Z)
| TextLengthExceeds (length : Z)
| TextLengthRemainder (total found : Z)
| ExtrinsicLengthRemainder (total found : Z)
| InvalidMetadataType
| DecodeFailure (message : string)
| TypeError (message : string).

Abbreviation result A := (sum Error A).

Definition toNumber (n : Z) : result Z :=
  if n <? 2 ^ 53 then inr n else inl (NotSafeInteger n).

(** ** Text *)

Module Text.
Section WithUtil.
Context {util : TextUtil}.

Definition MAX_LENGTH : Z := 128 * 1024.

(** The class: the string the object extends, and its two private
    fields.  The registry only serves [hash] and is left out. *)
Record Text := mkText {
  str : JSString;
  initialU8aLength : Z;
  override : option JSString
}.

(** [toString()]: [this.#override || super.toString()]; an empty
    override is falsy. *)
Definition toString (t : Text) : JSString :=
  match override t with
  | Some (c :: o) => c :: o
  | _ => str t
  end.

(** What the constructor accepts. *)
Inductive Value :=
| VNull                     (* undefined or null *)
| VText (t : Text)
| VString (s : JSString)       (* a primitive string *)
| VStringObject (s : JSString) (* a String object that is not a Text *)
| VU8a (a : U8a)               (* a Uint8Array that is not a Raw *)
| VRaw (a : U8a)
| VObject (shown : JSString)   (* any other object, with its toString() *).

Definition decodeText (value : Value) : result (JSString * Z) :=
  match value with
  | VU8a a =>
      if len a =? 0 then inr ([], 0)
      else
        let '(offset, length) := Compact.compactFromU8a a in
        match toNumber length with
        | inl e => inl e
        | inr n =>
            let total := offset + n in
            if negb (length <=? MAX_LENGTH) then inl (TextLengthExceeds length)
            else if negb (total <=? len a)
                 then inl (TextLengthRemainder total (len a))
                 else inr (u8aToString (subarray a offset total), total)
        end
  | VRaw a =>
      if len a =? 0 then inr ([], 0)
      else inr (u8aToString a, 0)
  | VString s =>
      if isHex s then inr (u8aToString (hexToU8a s), 0)
      else inr (s, 0)
  | VText t => inr (toString t, 0)
  | VStringObject s => inr (s, 0)
  | VObject shown => inr (shown, 0)
  | VNull => inr ([], 0)
  end.

(** [new Text(registry, value)] *)
Definition new (value : Value) : result Text :=
  match decodeText value with
  | inl e => inl e
  | inr (s, decodedLength) => inr (mkText s decodedLength None)
  end.

Definition toU8a (t : Text) (isBare : bool) : U8a :=
  let encoded := stringToU8a (str t) in
  if isBare then encoded else Compact.compactAddLength encoded.

Definition encodedLength (t : Text) : Z := len (toU8a t false).

Definition isEmpty (t : Text) : bool := len (str t) =? 0.

(** [eq(other)]: [isString(other)] holds of strings and of [String]
    objects, which a [Text] is. *)
Definition eq (t : Text) (other : Value) : bool :=
  match other with
  | VString s => bool_decide (toString t = s)
  | VStringObject s => bool_decide (toString t = s)
  | VText t' => bool_decide (toString t = toString t')
  | _ => false
  end.

(** The values [isString] holds of, each with the string its [toString()]
    gives. *)
Definition shownOf (other : Value) : option JSString :=
  match other with
  | VString s => Some s
  | VStringObject s => Some s
  | VText t' => Some (toString t')
  | _ => None
  end.

Definition setOverride (t : Text) (o : JSString) : Text :=
  mkText (str t) (initialU8aLength t) (Some o).

Definition toHex (t : Text) : JSString := u8aToHex (toU8a t true).

Definition toJSON (t : Text) : JSString := toString t.

Definition toHuman (t : Text) : JSString := toJSON t.

End WithUtil.
End Text.

(** ** Metadata *)

Module Metadata.

(** magic u32 preceding the version id *)
Definition VERSION_IDX : nat := 4.

(** The bytes the constant [EMPTY_METADATA] is created with: magic and
    the lowest supported version. *)
Definition EMPTY_METADATA : U8a := [0x6d; 0x65; 0x74; 0x61; 9].

(** The arrays [decodeMetadata] can reach.  [EMPTY_METADATA] is one
    object of the module, shared by every call; [valueArray] is the
    array the caller passed (for a hex string, the array [u8aToU8a]
    made from it; for no value, the default [EMPTY_U8A]).  *)
Record Store := mkStore {
  emptyMetadata : U8a;
  valueArray : U8a
}.

(** Which of the two arrays a variable refers to. *)
Inductive Target := TEmptyMetadata | TValue.

Definition read (s : Store) (t : Target) : U8a :=
  match t with
  | TEmptyMetadata => emptyMetadata s
  | TValue => valueArray s
  end.

(** [array[i] = b]: an index out of range leaves a typed array as it is. *)
Definition write (s : Store) (t : Target) (i : nat) (b : Z) : Store :=
  match t with
  | TEmptyMetadata => mkStore (<[i := b]> (emptyMetadata s)) (valueArray s)
  | TValue => mkStore (emptyMetadata s) (<[i := b]> (valueArray s))
  end.

(** The array branch of [toU8a(value)]: the constant for an empty array,
    the array itself otherwise. *)
Definition toU8aTarget (s : Store) (value : Target) : Target :=
  if len (read s value) =? 0 then TEmptyMetadata else value.

Record Outcome M := mkOutcome {
  returned : option (result M); (* [None]: the recursion was cut off *)
  store : Store;                (* the arrays afterwards *)
  attempts : list U8a           (* the bytes given to [MetadataVersioned] *)
}.
Arguments mkOutcome {M}.
Arguments returned {M}.
Arguments store {M}.
Arguments attempts {M}.

(** What the constructor accepts. *)
Inductive Value Obj :=
| VUndefined
| VU8a (a : U8a)
| VString (s : JSString)
| VObject (o : Obj).            (* a Map or a Record *)
Arguments VUndefined {Obj}.
Arguments VU8a {Obj}.
Arguments VString {Obj}.
Arguments VObject {Obj}.

Section WithVersioned.
Context {util : TextUtil}.

(** [MetadataVersioned] is not among the sources: [M] is the class, [Obj]
    the maps and records it can be made of, [newVersioned] its
    constructor on bytes and [newVersionedOf] on anything else, for the
    registry at hand. *)
Variables M Obj : Type.
Variable newVersioned : U8a -> result M.
Variable newVersionedOf : Value Obj -> result M.

(** The first branch of [decodeMetadata], on an array.  The retry is the
    recursive call of the source; [fuel] bounds the depth. *)
Fixpoint decodeU8a (fuel : nat) (s : Store) (_value : Target)
    (tried : list U8a) : Outcome M :=
  match fuel with
  | O => mkOutcome None s tried
  | S fuel' =>
      let value := toU8aTarget s _value in
      let version := read s value !! VERSION_IDX in
      let tried' := tried ++ [read s value] in
      match newVersioned (read s value) with
      | inr m => mkOutcome (Some (inr m)) s tried'
      | inl error =>
          if bool_decide (version = Some 9)
          then decodeU8a fuel' (write s value VERSION_IDX 10) value tried'
          else mkOutcome (Some (inl error)) s tried'
      end
  end.

(** Two calls are the deepest the recursion gets (see [decodeU8a_fuel]). *)
Definition DEPTH : nat := 2.

(** [decodeMetadata(registry, _value)], with the module's
    [EMPTY_METADATA] as it is when the call is made. *)
Definition decodeMetadata (emptyMetadata : U8a) (_value : Value Obj)
    : Outcome M :=
  match _value with
  | VUndefined => decodeU8a DEPTH (mkStore emptyMetadata []) TValue []
  | VU8a a => decodeU8a DEPTH (mkStore emptyMetadata a) TValue []
  | VString s =>
      if isHex s
      then decodeU8a DEPTH (mkStore emptyMetadata (hexToU8a s)) TValue []
      else if len s =? 0
      then mkOutcome (Some (inl InvalidMetadataType))
             (mkStore emptyMetadata []) []
      else mkOutcome (Some (newVersionedOf _value))
             (mkStore emptyMetadata []) []
  | VObject o =>
      mkOutcome (Some (newVersionedOf _value)) (mkStore emptyMetadata []) []
  end.

(** [toU8a(value)]: the bytes of the array it returns; a hex string is
    converted first, anything that is neither is refused. *)
Definition toU8a (emptyMetadata : U8a) (_value : Value Obj) : result U8a :=
  match _value with
  | VUndefined => inr (read (mkStore emptyMetadata []) (toU8aTarget (mkStore emptyMetadata []) TValue))
  | VU8a a => inr (read (mkStore emptyMetadata a) (toU8aTarget (mkStore emptyMetadata a) TValue))
  | VString s =>
      if isHex s
      then inr (read (mkStore emptyMetadata (hexToU8a s))
                  (toU8aTarget (mkStore emptyMetadata (hexToU8a s)) TValue))
      else inl InvalidMetadataType
  | VObject _ => inl InvalidMetadataType
  end.

(** The values [toU8a] takes for empty: no value, an array without
    bytes, a hex string without digits. *)
Definition isEmptyValue (_value : Value Obj) : bool :=
  match _value with
  | VUndefined => true
  | VU8a a => len a =? 0
  | VString s => isHex s && (len (hexToU8a s) =? 0)
  | VObject _ => false
  end.

(** The array a value stands for in the first branch of
    [decodeMetadata], when it stands for one: the array itself, the array
    [u8aToU8a] makes of a hex string, the default [EMPTY_U8A] for no
    value. *)
Definition arrayOf (_value : Value Obj) : option U8a :=
  match _value with
  | VUndefined => Some []
  | VU8a a => Some a
  | VString s => if isHex s then Some (hexToU8a s) else None
  | VObject _ => None
  end.

(** A sequence of constructions, one after the other, sharing the
    module's constant. *)
Fixpoint decodeAll (emptyMetadata : U8a) (values : list (Value Obj)) : U8a :=
  match values with
  | [] => emptyMetadata
  | v :: rest =>
      decodeAll (Metadata.emptyMetadata (store (decodeMetadata emptyMetadata v))) rest
  end.

End WithVersioned.
End Metadata.

(** ** Extrinsic *)

Module Extrinsic.

(** Modelled from the spec: the constants of [extrinsic/constants.ts],
    which is not among the sources.  "version byte (low 7 bits = format
    version, top bit = signed flag)", "[versionByte = formatVersion |
    (0x80 if signed else 0)]"; the default version is the latest known
    one. *)
Definition BIT_SIGNED : Z := 0x80.
Definition BIT_UNSIGNED : Z := 0.
Definition UNMASK_VERSION : Z := 0x7f.
Definition DEFAULT_VERSION : Z := 4.

Inductive TypeName := ExtrinsicUnknown | ExtrinsicV4.

Definition VERSIONS : list TypeName :=
  [ ExtrinsicUnknown; (* v0 is unknown *)
    ExtrinsicUnknown;
    ExtrinsicUnknown;
    ExtrinsicUnknown;
    ExtrinsicV4 ].

(** [x & y] for a number that may be [undefined]. *)
Definition band (x : option Z) (y : Z) : Z :=
  match x with
  | Some v => Z.land v y
  | None => 0
  end.

(** [VERSIONS[version & UNMASK_VERSION] || VERSIONS[0]] *)
Definition typeOf (version : option Z) : TypeName :=
  match VERSIONS !! Z.to_nat (band version UNMASK_VERSION) with
  | Some t => t
  | None => ExtrinsicUnknown
  end.

Section WithRegistry.

(** The inner classes ([ExtrinsicV4], [ExtrinsicUnknown]) and the
    registry are not among the sources.  [Raw] is an inner value, seen
    through what [GenericExtrinsic] reads of it; [Payload] is what an
    inner value is made of; [createType] is [registry.createType] with
    the options [{ isSigned, version }]. *)
Variable Raw : Type.
Variable rawVersion : Raw -> Z.            (* [_raw.version] *)
Variable rawIsSigned : Raw -> bool.        (* [_raw.signature.isSigned] *)
Variable rawToU8a : Raw -> U8a.            (* [_raw.toU8a()] *)
Variable Payload : Type.
Variable createType : TypeName -> Payload + U8a -> bool -> option Z -> result Raw.

(** What the constructor accepts. *)
Inductive Value :=
| VExtrinsic (raw : Raw)       (* a GenericExtrinsic, with its [_raw] *)
| VU8a (a : U8a)               (* bytes, an array of numbers or hex *)
| VCall (call : Payload)
| VOther (value : Payload).

(** [_newFromValue] on a value that is not a GenericExtrinsic. *)
Definition _newFromValue (value : Payload + U8a) (version : option Z)
    : result Raw :=
  let isSigned := band version BIT_SIGNED =? BIT_SIGNED in
  let type := typeOf version in
  createType type value isSigned version.

Definition _decodeU8a (value : U8a) (version : Z) : result Raw :=
  if len value =? 0 then _newFromValue (inr []) (Some version)
  else
    let '(offset, length) := Compact.compactFromU8a value in
    match toNumber length with
    | inl e => inl e
    | inr n =>
        let total := offset + n in
        if negb (total <=? len value)
        then inl (ExtrinsicLengthRemainder total (len value))
        else
          let data := subarray value offset total in
          _newFromValue (inr (subarray data 1 (len data))) (data !! 0%nat)
    end.

(** [wrap] is how a call becomes the value [{ method: call }]. *)
Variable wrap : Payload -> Payload.

Definition _decodeExtrinsic (value : Value) (version : Z) : result Raw :=
  match value with
  | VU8a a => _decodeU8a a version
  | VCall call => _newFromValue (inl (wrap call)) (Some version)
  | VExtrinsic raw => inr raw
  | VOther v => _newFromValue (inl v) (Some version)
  end.

(** The class: the inner value of [Base] and the memoized hash.  A record
    is one extrinsic at one moment; the inner value is an object, which
    another extrinsic can hold as well (see [World]). *)
Record GenericExtrinsic := mkExtrinsic {
  _raw : Raw;
  hashCache : option U8a
}.

(** [new GenericExtrinsic(registry, value, { version })] *)
Definition new (value : Value) (version : option Z) : result GenericExtrinsic :=
  match _decodeExtrinsic value (default DEFAULT_VERSION version) with
  | inl e => inl e
  | inr raw => inr (mkExtrinsic raw None)
  end.

Definition type (e : GenericExtrinsic) : Z := rawVersion (_raw e).

Definition isSigned (e : GenericExtrinsic) : bool := rawIsSigned (_raw e).

Definition version (e : GenericExtrinsic) : Z :=
  Z.lor (type e) (if isSigned e then BIT_SIGNED else BIT_UNSIGNED).

(** [new Uint8Array([x])]: the number modulo 256. *)
Definition u8 (x : Z) : Z := x mod 256.

Definition toU8a (e : GenericExtrinsic) (isBare : bool) : U8a :=
  let encoded := [u8 (version e)] ++ rawToU8a (_raw e) in
  if isBare then encoded else Compact.compactAddLength encoded.

Definition encodedLength (e : GenericExtrinsic) : Z := len (toU8a e false).

Definition length (e : GenericExtrinsic) : Z := len (toU8a e true).

Definition toHex (e : GenericExtrinsic) (isBare : bool) : JSString :=
  u8aToHex (toU8a e isBare).

(** How a call of the inner value ends: it returns, or it throws. *)
Inductive Completion := Returned | Threw (error : Error).

(** Modelled from the spec: the [hash] of [Base], which is not among the
    sources.  "hash: digest of the canonical encoding, computed via the
    registry's injected hash function"; [registryHash] is
    [registry.hash]. *)
Variable registryHash : U8a -> U8a.

Definition superHash (e : GenericExtrinsic) : U8a :=
  registryHash (toU8a e false).

(** [get hash()]: the hash, and the object with the hash kept. *)
Definition hash (e : GenericExtrinsic) : U8a * GenericExtrinsic :=
  match hashCache e with
  | Some h => (h, e)
  | None => (superHash e, mkExtrinsic (_raw e) (Some (superHash e)))
  end.

(** The signing methods of the inner value are not among the sources:
    each is given by the inner value it leaves and by how it ends. *)
Variables SignatureArgs SignArgs FakeArgs : Type.
Variable rawAddSignature : Raw -> SignatureArgs -> Raw * Completion.
Variable rawSign : Raw -> SignArgs -> Raw * Completion.
Variable rawSignFake : Raw -> FakeArgs -> Raw * Completion.

(** The shape of [addSignature], [sign] and [signFake]: the inner method
    is called, then the kept hash is dropped; a throw of the inner method
    leaves before that. *)
Definition signing (inner : Raw -> Raw * Completion) (e : GenericExtrinsic)
    : GenericExtrinsic * Completion :=
  let '(raw, completion) := inner (_raw e) in
  match completion with
  | Returned => (mkExtrinsic raw None, Returned)
  | Threw error => (mkExtrinsic raw (hashCache e), Threw error)
  end.

Definition addSignature (e : GenericExtrinsic) (args : SignatureArgs) :=
  signing (fun raw => rawAddSignature raw args) e.

Definition sign (e : GenericExtrinsic) (args : SignArgs) :=
  signing (fun raw => rawSign raw args) e.

Definition signFake (e : GenericExtrinsic) (args : FakeArgs) :=
  signing (fun raw => rawSignFake raw args) e.

(** What the properties say of the kept hash: when there is one, it is the
    hash of the encoding the object has. *)
Definition hashKept (e : GenericExtrinsic) : Prop :=
  match hashCache e with
  | Some h => h = superHash e
  | None => True
  end.

(** [toJSON()] is [toHex()], with the length. *)
Definition toJSON (e : GenericExtrinsic) : JSString := toHex e false.

(** The methods of an extrinsic that read or drop the kept hash. *)
Inductive Call :=
| CallHash
| CallAddSignature (args : SignatureArgs)
| CallSign (args : SignArgs)
| CallSignFake (args : FakeArgs).

Definition perform (e : GenericExtrinsic) (c : Call)
    : GenericExtrinsic * Completion :=
  match c with
  | CallHash => ((hash e).2, Returned)
  | CallAddSignature args => addSignature e args
  | CallSign args => sign e args
  | CallSignFake args => signFake e args
  end.

(** Extrinsics that share an inner value.  [_newFromValue] returns
    [value._raw] for a [GenericExtrinsic], so an extrinsic made of another
    holds the same inner object, and a signing method changes that object
    for all that hold it while it drops the kept hash of the extrinsic it
    is called on only.  A [World] has the inner objects, each at its
    place, and the extrinsics, each with the place of its inner value and
    its kept hash; a [GenericExtrinsic] record is what one extrinsic is at
    one moment. *)
Record Holder := mkHolder {
  place : nat;          (* where [_raw] is *)
  kept : option U8a     (* [#hashCache] *)
}.

Record World := mkWorld {
  inners : list Raw;
  holders : list Holder
}.

(** The extrinsic [i] as it is in a world. *)
Definition view (w : World) (i : nat) : option GenericExtrinsic :=
  match holders w !! i with
  | Some h =>
      match inners w !! place h with
      | Some raw => Some (mkExtrinsic raw (kept h))
      | None => None
      end
  | None => None
  end.

(** The world after a method of the extrinsic [i]: its inner object and
    its own kept hash are as the method left them. *)
Definition leave (w : World) (i : nat) (e : GenericExtrinsic) : World :=
  match holders w !! i with
  | Some h =>
      mkWorld (<[place h := _raw e]> (inners w))
              (<[i := mkHolder (place h) (hashCache e)]> (holders w))
  | None => w
  end.

Inductive WorldCall :=
| OnExtrinsic (i : nat) (c : Call)  (* a method of the extrinsic [i] *)
| NewFrom (i : nat).                (* [new GenericExtrinsic(registry, extrinsic i)] *)

(** A call in a world; [None] when there is no such extrinsic. *)
Definition act (w : World) (c : WorldCall) : option (World * Completion) :=
  match c with
  | OnExtrinsic i c =>
      match view w i with
      | Some e =>
          let '(e', completion) := perform e c in
          Some (leave w i e', completion)
      | None => None
      end
  | NewFrom i =>
      match holders w !! i with
      | Some h =>
          Some (mkWorld (inners w) (holders w ++ [mkHolder (place h) None]),
                Returned)
      | None => None
      end
  end.

(** [hash] of the extrinsic [i] in a world, and its encoding. *)
Definition hashOf (w : World) (i : nat) : option U8a :=
  match view w i with
  | Some e => Some (hash e).1
  | None => None
  end.

Definition encodingOf (w : World) (i : nat) : option U8a :=
  match view w i with
  | Some e => Some (toU8a e false)
  | None => None
  end.

Definition isSigning (c : Call) : bool :=
  match c with
  | CallHash => false
  | _ => true
  end.

(** What the properties ask of a call for the sake of the extrinsic [i]:
    it is not a signing method called on another extrinsic that holds the
    inner value of [i]. *)
Definition apart (w : World) (i : nat) (c : WorldCall) : Prop :=
  match c with
  | OnExtrinsic j call =>
      isSigning call = true -> j <> i ->
      place <$> holders w !! j <> place <$> holders w !! i
  | NewFrom _ => True
  end.

(** The worlds a sequence of such calls leads through as long as every
    call returns. *)
Inductive leads (i : nat) : World -> World -> Prop :=
| leads_here (w : World) : leads i w w
| leads_call (w w' w'' : World) (c : WorldCall) :
    leads i w w' -> apart w' i c -> act w' c = Some (w'', Returned) ->
    leads i w w''.

(** What the properties say of the extrinsic [i] in a world: its kept
    hash, when there is one, is the hash of its encoding. *)
Definition current (w : World) (i : nat) : Prop :=
  match view w i with
  | Some e => hashKept e
  | None => True
  end.

End WithRegistry.
End Extrinsic.

(** ** Derives: the sections a runtime gets *)

Module Derive.

Record Avail := mkAvail {
  instances : list string;
  withDetect : bool            (* absent in the source means false *)
}.

(** Enable derive only if some of these modules are available *)
Definition checks : gmap string Avail :=
  list_to_map [
    ("contracts", mkAvail ["contracts"] false);
    ("council", mkAvail ["council"] true);
    ("crowdloan", mkAvail ["crowdloan"] false);
    ("democracy", mkAvail ["democracy"] false);
    ("elections", mkAvail ["phragmenElection"; "electionsPhragmen"; "elections"; "council"] true);
    ("imOnline", mkAvail ["imOnline"] false);
    ("membership", mkAvail ["membership"] false);
    ("parachains", mkAvail ["parachains"; "registrar"] false);
    ("session", mkAvail ["session"] false);
    ("society", mkAvail ["society"] false);
    ("staking", mkAvail ["staking"] false);
    ("technicalCommittee", mkAvail ["technicalCommittee"] true);
    ("treasury", mkAvail ["treasury"] false)
  ]%string.

(** What [injectFunctions] reads of the api. *)
Record Api := mkApi {
  queryKeys : list string;                 (* [Object.keys(api.query)] *)
  specName : string;                       (* [api.runtimeVersion.specName] *)
  registryModuleInstances : string -> string -> option (list string)
}.

Definition getModuleInstances (api : Api) (specName moduleName : string)
    : list string :=
  default [] (registryModuleInstances api specName moduleName).

(** [a.includes(q)] *)
Definition includes (a : list string) (q : string) : bool :=
  existsb (String.eqb q) a.


(** [isIncluded] as the properties say it, without the loops: [checks]
    has no entry for the section, or an instance name of its entry is a
    key of [api.query], itself or, with detection, through a module
    instance the registry knows for it. *)
Definition available (api : Api) (s : string) : Prop :=
  checks !! s = None
  \/ exists c q,
       checks !! s = Some c /\ q ∈ instances c
       /\ (q ∈ queryKeys api
           \/ (withDetect c = true
               /\ exists k, k ∈ getModuleInstances api (specName api) q
                            /\ k ∈ queryKeys api)).

(** [checks] is an object literal, and [checks[s]] reads through it to
    [Object.prototype]: for the names below it gives a value that is not
    empty and has no [instances], on which [isIncluded] throws.  The
    properties of sections are about derives that have none of these
    names; for every other name [checks[s]] is the entry of [checks], if
    there is one. *)
Definition inherited : list string :=
  [ "constructor"; "hasOwnProperty"; "isPrototypeOf"; "propertyIsEnumerable";
    "toLocaleString"; "toString"; "valueOf"; "__proto__";
    "__defineGetter__"; "__defineSetter__"; "__lookupGetter__";
    "__lookupSetter__" ]%string.

(** No section of the derives has a name of [Object.prototype]. *)
Definition ownNames {A} (derives : list (string * A)) : Prop :=
  Forall (fun name => name ∉ inherited) (map fst derives).

Section WithCreators.

(** [Creator] is a derive as the packages export it, [Fn] the function it
    gives once the instance id and the api are passed. *)
Variables Creator Fn : Type.
Variable call : Creator -> string -> Api -> Fn.

Definition DeriveCustom := list (string * list (string * Creator)).

(** [isIncluded] for a name that is not one of [inherited]; for the
    others see [DeriveProto]. *)
Definition isIncluded (api : Api) (s : string) : bool :=
  let filterQueryKeys := includes (queryKeys api) in
  let filterInstances := fun q =>
    existsb filterQueryKeys (getModuleInstances api (specName api) q) in
  match checks !! s with
  | None => true
  | Some c =>
      existsb filterQueryKeys (instances c)
      || (withDetect c && existsb filterInstances (instances c))
  end.

(** [lazyDeriveSection(result, name, getKeys, creator)] defines the
    property [name] of [result]: the section with one function for every
    key of [derives[name]].  The section is given here as it is once it
    has been read. *)
Definition section (instanceId : string) (api : Api)
    (methods : list (string * Creator)) : list (string * Fn) :=
  map (fun m => (m.1, call m.2 instanceId api)) methods.

Definition injectFunctions (instanceId : string) (api : Api)
    (derives : DeriveCustom) : list (string * list (string * Fn)) :=
  map (fun d => (d.1, section instanceId api d.2))
      (List.filter (fun d => isIncluded api d.1) derives).

End WithCreators.
End Derive.

(** [injectFunctions] for any names.  [Derive.isIncluded] looks a name up
    among the entries of [checks]; the source reads [checks[s]], and for a
    name of [Object.prototype] this is a value that is not empty and has
    no [instances], so that [checks[s].instances.some] throws.  Here the
    read is as the source makes it, and the loop stops at the first name
    that throws. *)
Module DeriveProto.
Import Derive.

(** [checks[s]]: nothing, an entry of [checks], or what
    [Object.prototype] has under the name. *)
Inductive Read := Missing | Own (c : Avail) | Inherited.

Definition readChecks (s : string) : Read :=
  match checks !! s with
  | Some c => Own c
  | None => if bool_decide (s ∈ inherited) then Inherited else Missing
  end.

Section WithCreators.
Variables Creator Fn : Type.
Variable call : Creator -> string -> Api -> Fn.

Definition isIncluded (api : Api) (s : string) : result bool :=
  let filterQueryKeys := includes (queryKeys api) in
  let filterInstances := fun q =>
    existsb filterQueryKeys (getModuleInstances api (specName api) q) in
  match readChecks s with
  | Missing => inr true
  | Own c =>
      inr (existsb filterQueryKeys (instances c)
           || (withDetect c && existsb filterInstances (instances c)))
  | Inherited =>
      inl (TypeError "Cannot read properties of undefined (reading 'some')")
  end.

(** The loop over [Object.keys(derives)], from some name on, with the
    result so far. *)
Fixpoint injectFrom (instanceId : string) (api : Api)
    (names : DeriveCustom Creator) (result : list (string * list (string * Fn)))
    : Error + list (string * list (string * Fn)) :=
  match names with
  | [] => inr result
  | (name, methods) :: rest =>
      match isIncluded api name with
      | inl error => inl error
      | inr true =>
          injectFrom instanceId api rest
            (result ++ [(name, section Creator Fn call instanceId api methods)])
      | inr false => injectFrom instanceId api rest result
      end
  end.

Definition injectFunctions (instanceId : string) (api : Api)
    (derives : DeriveCustom Creator) : Error + list (string * list (string * Fn)) :=
  injectFrom instanceId api derives [].

End WithCreators.
End DeriveProto.

(** ** Extrinsic functions from the metadata *)

(** A JavaScript object with string keys: its entries in insertion order. *)
Module Obj.

Abbreviation t V := (list (string * V)).

Fixpoint get {V} (o : t V) (key : string) : option V :=
  match o with
  | [] => None
  | (k, v) :: rest => if String.eqb k key then Some v else get rest key
  end.

(** [o[key] = v]: an entry that exists keeps its place. *)
Fixpoint set {V} (o : t V) (key : string) (v : V) : t V :=
  match o with
  | [] => [(key, v)]
  | (k, v') :: rest =>
      if String.eqb k key then (k, v) :: rest else (k, v') :: set rest key v
  end.

Definition keys {V} (o : t V) : list string := map fst o.

End Obj.

(** [a.reduce((acc, x, index) => f(acc, x, index), init)] *)
Fixpoint reduceFrom {A B} (f : B -> A -> nat -> B) (index : nat)
    (a : list A) (acc : B) : B :=
  match a with
  | [] => acc
  | x :: rest => reduceFrom f (S index) rest (f acc x index)
  end.

Definition reduce {A B} (f : B -> A -> nat -> B) (init : B) (a : list A) : B :=
  reduceFrom f 0 a init.

Module FromMetadata.
Section WithMeta.

(** [stringCamelCase] of [@polkadot/util]. *)
Variable stringCamelCase : string -> string.

(** [FunctionMetadata]: the description of a call; only its name is read
    here. *)
Variable FunctionMetadata : Type.
Variable callName : FunctionMetadata -> string.

Record ModuleMetadata := mkModule {
  name : string;
  calls : option (list FunctionMetadata)
}.

(** [createUnchecked(section, sectionIndex, methodIndex, callMetadata)]
    is not among the sources: the function it returns is given by what
    it is bound to. *)
Record Method := createUnchecked {
  section : string;
  sectionIndex : nat;
  methodIndex : nat;
  meta : FunctionMetadata
}.

Abbreviation Calls := (Obj.t Method).
Abbreviation ModulesWithCalls := (Obj.t Calls).

(** [modul.calls.isSome] *)
Definition isSome (modul : ModuleMetadata) : bool :=
  match calls modul with Some _ => true | None => false end.

(** [modul.calls.unwrap()], taken only of a module that has calls. *)
Definition unwrap (modul : ModuleMetadata) : list FunctionMetadata :=
  default [] (calls modul).

(** The inner [reduce]: the functions of one module. *)
Definition newModule (section : string) (sectionIndex : nat)
    (callList : list FunctionMetadata) : Calls :=
  reduce (fun newModule callMetadata methodIndex =>
            let method := stringCamelCase (callName callMetadata) in
            Obj.set newModule method
              (createUnchecked section sectionIndex methodIndex callMetadata))
         [] callList.

(** [fromMetadata(metadata)], given [metadata.asV7.modules] and the
    static [extrinsics] the result starts from. *)
Definition fromMetadata (extrinsics : ModulesWithCalls)
    (modules : list ModuleMetadata) : ModulesWithCalls :=
  reduce (fun result modul sectionIndex =>
            let section := stringCamelCase (name modul) in
            Obj.set result section
              (newModule section sectionIndex (unwrap modul)))
         extrinsics
         (List.filter isSome modules).

(** The name under which the function of a call is stored. *)
Definition methodOf (callMetadata : FunctionMetadata) : string :=
  stringCamelCase (callName callMetadata).

(** What the properties compare a section with: one function for every
    call of the list, in the order of the list, bound to the index of the
    section and to the position of the call, counted from [from]. *)
Fixpoint declared (section : string) (sectionIndex from : nat)
    (callList : list FunctionMetadata) : Calls :=
  match callList with
  | [] => []
  | callMetadata :: rest =>
      (methodOf callMetadata,
       createUnchecked section sectionIndex from callMetadata)
        :: declared section sectionIndex (S from) rest
  end.

End WithMeta.
End FromMetadata.

(** ** All derives: the built-in ones and the custom ones *)

Module AvailableDerives.

(** [{ ...a, ...b }]: the entries of [a], then those of [b], assigned one
    after the other to an empty object. *)
Definition spread {V} (a b : Obj.t V) : Obj.t V :=
  fold_left (fun o entry => Obj.set o entry.1 entry.2) (a ++ b) [].

Section WithCreators.
Variables Creator Fn : Type.
Variable call : Creator -> string -> Derive.Api -> Fn.

(** [getAvailableDerives(instanceId, api, custom)]; [derive] is the object
    of the built-in sections, which the module imports. *)
Definition getAvailableDerives (derive : Derive.DeriveCustom Creator)
    (instanceId : string) (api : Derive.Api)
    (custom : Derive.DeriveCustom Creator) : Obj.t (list (string * Fn)) :=
  spread (Derive.injectFunctions Creator Fn call instanceId api derive)
         (Derive.injectFunctions Creator Fn call instanceId api custom).

End WithCreators.
End AvailableDerives.

(** ** Values the properties are tried on *)

(** A text with a display override. *)
Definition overridden : Text.Text := Text.mkText (js "abc") 0 (Some (js "x")).

(** The round trip at the text [abc] and at the body [hi]. *)
Definition abc : Text.Text := Text.mkText (js "abc") 0 None.

(** A versioned decoder that takes version 10 only, and a blob of that
    shape labelled version 9. *)
Definition onlyV10 (a : U8a) : result U8a :=
  if bool_decide (a !! Metadata.VERSION_IDX = Some 10) then inr a
  else inl (DecodeFailure "unsupported version").

Definition noObjects (v : Metadata.Value unit) : result U8a :=
  inl InvalidMetadataType.

Definition mislabelled : U8a := [0x6d; 0x65; 0x74; 0x61; 9; 0].

(** A versioned decoder that takes versions 9 and 10. *)
Definition v9v10 (a : U8a) : result U8a :=
  if bool_decide (a !! Metadata.VERSION_IDX = Some 9)
     || bool_decide (a !! Metadata.VERSION_IDX = Some 10)
  then inr a else inl (DecodeFailure "unsupported version").

(** Inner extrinsics given by their three observations, and a registry
    that makes them: the version of the inner class, the signed flag it is
    told, and the bytes it is given. *)
Record RawModel := mkRaw {
  modelType : Extrinsic.TypeName;
  modelVersion : Z;
  modelIsSigned : bool;
  modelBytes : U8a
}.

Definition createModel (type : Extrinsic.TypeName) (value : U8a + U8a)
    (isSigned : bool) (version : option Z) : result RawModel :=
  inr (mkRaw type
         (match type with Extrinsic.ExtrinsicV4 => 4 | Extrinsic.ExtrinsicUnknown => 0 end)
         isSigned
         (match value with inl a => a | inr a => a end)).

(** A registry whose [ExtrinsicUnknown] refuses what it is given, and
    whose [ExtrinsicV4] is that of [createModel]. *)
Definition createStrict (type : Extrinsic.TypeName) (value : U8a + U8a)
    (isSigned : bool) (version : option Z) : result RawModel :=
  match type with
  | Extrinsic.ExtrinsicV4 => createModel type value isSigned version
  | Extrinsic.ExtrinsicUnknown => inl (DecodeFailure "Unsupported extrinsic version")
  end.

(** A runtime with the pallets [system], [balances] and [elections], and
    one whose registry knows the council under the instance name
    [generalCouncil]. *)
Definition plainApi : Derive.Api :=
  Derive.mkApi ["system"; "balances"; "elections"]%string "node"%string
    (fun _ _ => None).

Definition aliasApi : Derive.Api :=
  Derive.mkApi ["system"; "generalCouncil"]%string "node"%string
    (fun specName moduleName =>
       if (String.eqb specName "node" && String.eqb moduleName "council")%string
       then Some ["generalCouncil"%string] else None).

(** Derives given by their names only. *)
Definition someDerives : Derive.DeriveCustom unit :=
  [ ("accounts", [("info", tt)]);
    ("council", [("votes", tt)]);
    ("elections", [("info", tt)]);
    ("staking", [("account", tt)]);
    ("tx", [("events", tt)]) ]%string.

(** Metadata with a module without calls before one with calls; a call is
    given by its name, and names are taken as they are. *)
Definition systemModule : FromMetadata.ModuleMetadata string :=
  FromMetadata.mkModule string "system" None.

Definition timestampModule : FromMetadata.ModuleMetadata string :=
  FromMetadata.mkModule string "timestamp" (Some ["set"%string]).

Definition balancesModule : FromMetadata.ModuleMetadata string :=
  FromMetadata.mkModule string "balances" (Some ["transfer"; "setBalance"]%string).

(** A short text, and what may follow its encoding. *)
Definition hello : Text.Text := Text.mkText (js "hello") 0 None.

(** A text of one byte more than [MAX_LENGTH]. *)
Definition tooLong : Text.Text :=
  Text.mkText (repeat 97 (Z.to_nat 131073)) 0 None.

(** A registry hash that tells encodings apart by their length and first
    bytes, and signing methods that set the signed flag and put the
    argument before the bytes. *)
Definition hashModel (a : U8a) : U8a := len a :: take 2 a.

Definition signModel (raw : RawModel) (signature : U8a)
    : RawModel * Extrinsic.Completion :=
  (mkRaw (modelType raw) (modelVersion raw) true (signature ++ modelBytes raw),
   Extrinsic.Returned).

Definition unsignedModel : Extrinsic.GenericExtrinsic RawModel :=
  Extrinsic.mkExtrinsic RawModel (mkRaw Extrinsic.ExtrinsicV4 4 false [3; 0; 116]) None.

(** The runtime of [plainApi] with the council pallet added. *)
Definition richerApi : Derive.Api :=
  Derive.mkApi ["system"; "balances"; "elections"; "council"]%string "node"%string
    (fun _ _ => None).

(** Custom derives: a section of their own and one named like a built-in
    one. *)
Definition customDerives : Derive.DeriveCustom unit :=
  [ ("elections", [("custom", tt)]); ("mine", [("first", tt)]) ]%string.

(** Metadata in which a module name and a call name come twice. *)
Definition utilityModule : FromMetadata.ModuleMetadata string :=
  FromMetadata.mkModule string "utility" (Some ["batch"; "asDerivative"; "batch"]%string).

Definition utilityAgain : FromMetadata.ModuleMetadata string :=
  FromMetadata.mkModule string "utility" (Some ["batchAll"]%string).


(** [unsignedModel] after [sign] with the argument [7, 7]. *)
Definition signedModel : Extrinsic.GenericExtrinsic RawModel :=
  Extrinsic.mkExtrinsic RawModel (mkRaw Extrinsic.ExtrinsicV4 4 true [7; 7; 3; 0; 116]) None.


(** A world with one inner value and one extrinsic; the same after
    [hash()] of the extrinsic, the construction of a second extrinsic from
    it and [hash()] of the second; and that world after [sign] of the
    first with the argument [7, 7]. *)
Definition oneWorld : Extrinsic.World RawModel :=
  Extrinsic.mkWorld RawModel [mkRaw Extrinsic.ExtrinsicV4 4 false [3; 0; 116]]
    [Extrinsic.mkHolder 0 None].

Definition twoHashed : Extrinsic.World RawModel :=
  Extrinsic.mkWorld RawModel [mkRaw Extrinsic.ExtrinsicV4 4 false [3; 0; 116]]
    [Extrinsic.mkHolder 0 (Some [5; 16; 4]); Extrinsic.mkHolder 0 (Some [5; 16; 4])].

Definition oneSigned : Extrinsic.World RawModel :=
  Extrinsic.mkWorld RawModel [mkRaw Extrinsic.ExtrinsicV4 4 true [7; 7; 3; 0; 116]]
    [Extrinsic.mkHolder 0 None; Extrinsic.mkHolder 0 (Some [5; 16; 4])].
(** * Properties *)

(** ** The utilities on examples *)

Example compactToU8a_1 : Compact.compactToU8a 1 = [4].
Proof. reflexivity. Qed.

Example compactToU8a_64 : Compact.compactToU8a 64 = [1; 1].
Proof. reflexivity. Qed.

Example compactToU8a_65535 : Compact.compactToU8a 65535 = [254; 255; 3; 0].
Proof. reflexivity. Qed.

Example compactToU8a_big : Compact.compactToU8a 1073741824 = [3; 0; 0; 0; 64].
Proof. reflexivity. Qed.

Example compactFromU8a_big :
  Compact.compactFromU8a [3; 0; 0; 0; 64; 7] = (5, 1073741824).
Proof. reflexivity. Qed.

Example compactFromU8a_short : Compact.compactFromU8a [1] = (2, 0).
Proof. reflexivity. Qed.

Example utf8_ascii : Utf8.encode (js "abc") = [97; 98; 99].
Proof. reflexivity. Qed.

Example utf8_euro : Utf8.encode [0x20AC] = [0xE2; 0x82; 0xAC].
Proof. reflexivity. Qed.

Example utf8_pair : Utf8.encode [0xD83D; 0xDE00] = [0xF0; 0x9F; 0x98; 0x80].
Proof. reflexivity. Qed.

Example utf8_lone : Utf8.encode [0xD83D; 97] = [0xEF; 0xBF; 0xBD; 97].
Proof. reflexivity. Qed.

Example utf8_decode_pair : Utf8.decode [0xF0; 0x9F; 0x98; 0x80; 0xC3; 0xA9] = [0xD83D; 0xDE00; 0xE9].
Proof. reflexivity. Qed.

Example utf8_decode_bad : Utf8.decode [0xE2; 0x82; 97; 0xFF] = [0xFFFD; 97; 0xFFFD].
Proof. reflexivity. Qed.

Example u8aToHex_ex : u8aToHex [0; 12; 78] = js "0x000c4e".
Proof. reflexivity. Qed.

Example hexToU8a_ex : (Utf8.isHexString (js "0x000C4e"), Utf8.hexToBytes (js "0x000C4e")) = (true, [0; 12; 78]).
Proof. reflexivity. Qed.

(** ** Arrays *)

Lemma len_nonneg {A} (a : list A) : 0 <= len a.
Proof. unfold len. lia. Qed.

Lemma len_app {A} (a b : list A) : len (a ++ b) = len a + len b.
Proof. unfold len. rewrite length_app. lia. Qed.

Lemma len_cons {A} (x : A) (a : list A) : len (x :: a) = 1 + len a.
Proof. unfold len. cbn [length]. lia. Qed.

Lemma len_nil {A} : len (@nil A) = 0.
Proof. reflexivity. Qed.

Lemma subarray_app_l {A} (a b : list A) :
  subarray (a ++ b) 0 (len a) = a.
Proof.
  unfold subarray, len. rewrite Z.sub_0_r, Nat2Z.id.
  change (Z.to_nat 0) with 0%nat. rewrite drop_0.
  by rewrite take_app_length.
Qed.

Lemma subarray_app_r {A} (a b : list A) :
  subarray (a ++ b) (len a) (len a + len b) = b.
Proof.
  unfold subarray, len.
  replace (Z.of_nat (length a) + Z.of_nat (length b) - Z.of_nat (length a))
    with (Z.of_nat (length b)) by lia.
  rewrite !Nat2Z.id, drop_app_length. apply firstn_all.
Qed.

Lemma subarray_cons_app {A} (x : A) (a b : list A) :
  subarray (x :: a ++ b) 1 (1 + len a) = a.
Proof.
  unfold subarray, len. replace (1 + Z.of_nat (length a) - 1) with (Z.of_nat (length a)) by lia.
  rewrite Nat2Z.id. change (Z.to_nat 1) with 1%nat.
  rewrite skipn_cons, drop_0. by rewrite take_app_length.
Qed.

Lemma subarray_tail {A} (x : A) (a : list A) :
  subarray (x :: a) 1 (len (x :: a)) = a.
Proof.
  change (x :: a) with ([x] ++ a). rewrite len_app.
  apply (subarray_app_r [x] a).
Qed.

(** Case analysis on the comparisons the goal tests, each case with the
    order it stands for; the cases that arithmetic refutes are closed. *)
Ltac split_order c yes no :=
  let E := fresh "E" in
  destruct c eqn:E; [apply yes in E | apply no in E].

Ltac cases_Z :=
  repeat match goal with
  | |- context [?a <=? ?b] => split_order (a <=? b) Z.leb_le Z.leb_gt
  | |- context [?a <? ?b] => split_order (a <? b) Z.ltb_lt Z.ltb_ge
  | |- context [?a =? ?b] => split_order (a =? b) Z.eqb_eq Z.eqb_neq
  end; cbn [negb]; try lia.

(** ** Compact codec *)

Module CompactFacts.
Import Compact.

Lemma bnToU8a_length k n : length (bnToU8a k n) = k.
Proof. revert n. induction k as [|k IH]; intros n; cbn; [done|]. by rewrite IH. Qed.

Lemma bnToU8a_len k n : len (bnToU8a k n) = Z.of_nat k.
Proof. unfold len. by rewrite bnToU8a_length. Qed.

Lemma bnToU8a_bytes k n : isBytes (bnToU8a k n).
Proof.
  revert n. induction k as [|k IH]; intros n; cbn; constructor.
  - apply Z.mod_pos_bound. lia.
  - apply IH.
Qed.

(** Reading back the [k] low bytes of [n] gives [n] modulo [256^k]. *)
Lemma u8aToBn_bnToU8a k n :
  0 <= n -> u8aToBn (bnToU8a k n) = n mod 256 ^ Z.of_nat k.
Proof.
  revert n. induction k as [|k IH]; intros n Hn.
  - cbn. by rewrite Z.mod_1_r.
  - cbn [bnToU8a u8aToBn]. rewrite IH by (apply Z.div_pos; lia).
    rewrite Nat2Z.inj_succ, Z.pow_succ_r by lia.
    rewrite Z.rem_mul_r by lia. lia.
Qed.

Lemma u8aToBn_bnToU8a_small k n :
  0 <= n < 256 ^ Z.of_nat k -> u8aToBn (bnToU8a k n) = n.
Proof.
  intros Hn. rewrite u8aToBn_bnToU8a by lia. by apply Z.mod_small.
Qed.

Lemma subarray_bnToU8a k n rest :
  subarray (bnToU8a k n ++ rest) 0 (Z.of_nat k) = bnToU8a k n.
Proof. rewrite <- (bnToU8a_len k n). apply subarray_app_l. Qed.

Lemma shiftr2 x c : 0 <= c < 4 -> Z.shiftr (x * 4 + c) 2 = x.
Proof.
  intros Hc. rewrite Z.shiftr_div_pow2 by lia. change (2 ^ 2) with 4.
  rewrite Z.add_comm, Z.div_add by lia. rewrite Z.div_small by lia. lia.
Qed.

Lemma mod4 x c : 0 <= c < 4 -> (x * 4 + c) mod 4 = c.
Proof.
  intros Hc. rewrite Z.add_comm, Z.mod_add by lia. by apply Z.mod_small.
Qed.

Lemma byteAt_cons b a : byteAt (b :: a) 0 = b.
Proof. reflexivity. Qed.

Lemma byteLength_bound n :
  0 < n -> n < 256 ^ Z.of_nat (byteLength n).
Proof.
  intros Hn. unfold byteLength.
  destruct (Z.leb_spec n 0) as [|_]; [lia|].
  pose proof (Z.log2_nonneg n) as Hl.
  pose proof (Z.log2_spec n Hn) as [_ Hlt].
  rewrite Z2Nat.id by (pose proof (Z.div_pos (Z.log2 n) 8); lia).
  change 256 with (2 ^ 8). rewrite <- Z.pow_mul_r by (try lia; pose proof (Z.div_pos (Z.log2 n) 8); lia).
  eapply Z.lt_le_trans; [exact Hlt|].
  apply Z.pow_le_mono_r; [lia|].
  pose proof (Z.div_mod (Z.log2 n) 8 ltac:(lia)).
  pose proof (Z.mod_pos_bound (Z.log2 n) 8 ltac:(lia)). lia.
Qed.

Lemma byteLength_big n :
  1073741823 < n -> n < 2 ^ 536 ->
  4 <= Z.of_nat (byteLength n) <= 67.
Proof.
  intros Hlo Hhi. unfold byteLength.
  destruct (Z.leb_spec n 0) as [|_]; [lia|].
  assert (30 <= Z.log2 n) as H30.
  { apply Z.log2_le_pow2; [lia|]. change (2 ^ 30) with 1073741824. lia. }
  assert (Z.log2 n < 536) as H536 by (apply Z.log2_lt_pow2; lia).
  pose proof (Z.div_mod (Z.log2 n) 8 ltac:(lia)).
  pose proof (Z.mod_pos_bound (Z.log2 n) 8 ltac:(lia)).
  rewrite Z2Nat.id by lia. lia.
Qed.

(** The prefix is never empty. *)
Lemma compactToU8a_len_pos n : 1 <= len (compactToU8a n).
Proof.
  unfold compactToU8a.
  repeat match goal with |- context [if ?c then _ else _] => destruct c end;
    unfold len; cbn [length]; rewrite ?bnToU8a_length; lia.
Qed.

Lemma compactToU8a_len n :
  0 <= n <= 1073741823 ->
  len (compactToU8a n) =
    if n <=? 63 then 1 else if n <=? 16383 then 2 else 4.
Proof.
  intros Hn. unfold compactToU8a.
  repeat match goal with |- context [if ?c then _ else _] => destruct c eqn:? end;
    try reflexivity; lia.
Qed.

Lemma land3 x : Z.land x 3 = x mod 4.
Proof. change 3 with (Z.ones 2). by rewrite Z.land_ones. Qed.

(** Decoding a prefix gives its width and the number it was made of,
    whatever follows it. *)
Theorem compactFromU8a_compactToU8a n rest :
  0 <= n < 2 ^ 536 ->
  compactFromU8a (compactToU8a n ++ rest) = (len (compactToU8a n), n).
Proof.
  intros [Hn Hhi]. unfold compactToU8a.
  destruct (Z.leb_spec n 63) as [H1|H1];
    [|destruct (Z.leb_spec n 16383) as [H2|H2];
      [|destruct (Z.leb_spec n 1073741823) as [H3|H3]]].
  - unfold compactFromU8a. cbn [app]. rewrite byteAt_cons, land3.
    rewrite Z.shiftl_mul_pow2 by lia. change (2 ^ 2) with 4.
    rewrite <- (Z.add_0_r (n * 4)), mod4, shiftr2 by lia. reflexivity.
  - unfold compactFromU8a.
    rewrite Z.shiftl_mul_pow2 by lia. change (2 ^ 2) with 4.
    assert (byteAt (bnToU8a 2 (n * 4 + 1) ++ rest) 0 = (n * 4 + 1) mod 256)
      as -> by reflexivity.
    rewrite land3, Z.mod_mod_divide by (by exists 64).
    rewrite mod4 by lia. cbn [Z.eqb].
    rewrite (subarray_bnToU8a 2), u8aToBn_bnToU8a_small by (cbn; lia).
    by rewrite shiftr2 by lia.
  - unfold compactFromU8a.
    rewrite Z.shiftl_mul_pow2 by lia. change (2 ^ 2) with 4.
    assert (byteAt (bnToU8a 4 (n * 4 + 2) ++ rest) 0 = (n * 4 + 2) mod 256)
      as -> by reflexivity.
    rewrite land3, Z.mod_mod_divide by (by exists 64).
    rewrite mod4 by lia. cbn [Z.eqb].
    rewrite (subarray_bnToU8a 4), u8aToBn_bnToU8a_small by (cbn; lia).
    by rewrite shiftr2 by lia.
  - pose proof (byteLength_big n H3 Hhi) as Hk.
    pose proof (byteLength_bound n ltac:(lia)) as Hb.
    set (k := byteLength n) in *.
    unfold compactFromU8a. cbn [app]. rewrite byteAt_cons, land3.
    rewrite Z.shiftl_mul_pow2 by lia. change (2 ^ 2) with 4.
    rewrite (Z.mod_small _ 256) by lia.
    rewrite mod4, shiftr2 by lia. cbn [Z.eqb].
    replace (1 + (Z.of_nat k - 4 + 4)) with (1 + Z.of_nat k) by lia.
    rewrite len_cons, bnToU8a_len. f_equal.
    assert (subarray (((Z.of_nat k - 4) * 4 + 3) :: bnToU8a k n ++ rest)
              1 (1 + Z.of_nat k) = bnToU8a k n) as ->.
    { pose proof (subarray_cons_app ((Z.of_nat k - 4) * 4 + 3) (bnToU8a k n) rest) as Hs.
      by rewrite bnToU8a_len in Hs. }
    apply u8aToBn_bnToU8a_small. lia.
Qed.

(** The same for a prefixed body whose length is a safe integer: the
    prefix is read back, and the array is not empty. *)
Lemma compactFromU8a_compactAddLength (body : U8a) :
  len body < 2 ^ 53 ->
  compactFromU8a (compactAddLength body)
  = (len (compactToU8a (len body)), len body)
  /\ toNumber (len body) = inr (len body)
  /\ len (compactAddLength body) = len (compactToU8a (len body)) + len body
  /\ 0 < len (compactAddLength body).
Proof.
  intros Hsafe. pose proof (len_nonneg body) as Hpos.
  pose proof (compactToU8a_len_pos (len body)) as Hpre.
  unfold compactAddLength. rewrite len_app. repeat split; [| |lia].
  - apply compactFromU8a_compactToU8a. split; [lia|].
    apply Z.lt_trans with (2 ^ 53); [lia|reflexivity].
  - unfold toNumber. by cases_Z.
Qed.

End CompactFacts.

(** ** Text *)

Module TextFacts.
Import Compact CompactFacts Text.

Section WithUtil.
Context {util : TextUtil}.

Lemma toU8a_bare (t : Text) : toU8a t true = stringToU8a (str t).
Proof. reflexivity. Qed.

(** The prefixed encoding is the prefix followed by the bare one. *)
Lemma toU8a_prefixed (t : Text) :
  toU8a t false = compactToU8a (len (toU8a t true)) ++ toU8a t true.
Proof. reflexivity. Qed.

(** Decoding a prefixed body of at most [MAX_LENGTH] bytes: the text of
    the body, all bytes consumed. *)
Lemma decodeText_compactAddLength (body : U8a) :
  len body <= MAX_LENGTH ->
  decodeText (VU8a (compactAddLength body))
  = inr (u8aToString body, len (compactAddLength body)).
Proof.
  unfold MAX_LENGTH. intros Hmax.
  assert (len body < 2 ^ 53) as Hsafe
    by (apply Z.le_lt_trans with (128 * 1024); [lia|reflexivity]).
  destruct (compactFromU8a_compactAddLength body Hsafe) as (Hread & Hnum & Hlen & Hpos).
  unfold decodeText. rewrite Hread, Hnum, Hlen. unfold MAX_LENGTH.
  rewrite Hlen in Hpos. cases_Z.
  unfold compactAddLength. by rewrite subarray_app_r.
Qed.

(** A body of more than [MAX_LENGTH] bytes is refused when it is read
    back. *)
Lemma decodeText_too_long (body : U8a) :
  MAX_LENGTH < len body -> len body < 2 ^ 53 ->
  decodeText (VU8a (compactAddLength body))
  = inl (TextLengthExceeds (len body)).
Proof.
  unfold MAX_LENGTH. intros Hmax Hsafe.
  destruct (compactFromU8a_compactAddLength body Hsafe) as (Hread & Hnum & Hlen & Hpos).
  unfold decodeText. rewrite Hread, Hnum, Hlen. unfold MAX_LENGTH.
  rewrite Hlen in Hpos. by cases_Z.
Qed.

Lemma u8aToHex_length (a : U8a) :
  length (u8aToHex a) = (2 + 2 * length a)%nat.
Proof.
  unfold u8aToHex. rewrite length_app. change (length (js "0x")) with 2%nat.
  f_equal. induction a as [|b a IH]; cbn; [done|]. rewrite IH. lia.
Qed.

(** C1, as the code has it.  Round trip of [Text]: a text with no display
    override in effect, whose encoding is at most [MAX_LENGTH] bytes long
    and which the text encoder and decoder reproduce, is read back from
    its encoding as a text that is [eq] to it, with the same string and
    with all bytes consumed; and a body of at most [MAX_LENGTH] bytes
    that the decoder and encoder reproduce, prefixed with its compact
    length, is read and encoded again to the same bytes, the bare
    encoding being the body without the prefix. *)
Theorem Text_round_trip (v : Text) (body : U8a) :
  toString v = str v ->
  len (stringToU8a (str v)) <= MAX_LENGTH ->
  u8aToString (stringToU8a (str v)) = str v ->
  len body <= MAX_LENGTH ->
  stringToU8a (u8aToString body) = body ->
  (exists t, new (VU8a (toU8a v false)) = inr t
             /\ eq t (VText v) = true
             /\ eq v (VText t) = true
             /\ str t = str v
             /\ initialU8aLength t = len (toU8a v false))
  /\ (exists t, new (VU8a (compactAddLength body)) = inr t
                /\ toU8a t false = compactAddLength body
                /\ toU8a t true = body
                /\ initialU8aLength t = len (compactAddLength body)).
Proof.
  intros Hshown Hmax Hstr Hmax' Hbody. split.
  - exists (mkText (str v) (len (toU8a v false)) None).
    unfold new, toU8a. rewrite decodeText_compactAddLength by done.
    rewrite Hstr. repeat split; unfold eq; apply bool_decide_eq_true;
      by rewrite Hshown.
  - exists (mkText (u8aToString body) (len (compactAddLength body)) None).
    unfold new. rewrite decodeText_compactAddLength by done.
    unfold toU8a. cbn [str]. by rewrite Hbody.
Qed.

(** C6, as the code has it.  Decoding [Text] from bytes: no bytes give
    the empty string and nothing consumed; of a [Uint8Array] that is not a
    [Raw] the compact prefix is read, the decoding fails exactly when the
    length it declares is above [MAX_LENGTH] or the prefix and that length
    together are more than the bytes there are, and when it does not fail
    it gives the text of the slice and consumes prefix and body; a [Raw]
    has no prefix, it is decoded whole and nothing counts as consumed. *)
Theorem decodeText_bounds (a : U8a) :
  a <> [] ->
  let offset := (compactFromU8a a).1 in
  let length := (compactFromU8a a).2 in
  decodeText (VU8a []) = inr ([], 0)
  /\ decodeText (VRaw []) = inr ([], 0)
  /\ ((exists e, decodeText (VU8a a) = inl e)
      <-> (MAX_LENGTH < length \/ len a < offset + length))
  /\ (length <= MAX_LENGTH -> offset + length <= len a ->
      decodeText (VU8a a)
      = inr (u8aToString (subarray a offset (offset + length)),
             offset + length))
  /\ decodeText (VRaw a) = inr (u8aToString a, 0).
Proof.
  intros Ha. cbn zeta. split; [reflexivity|]. split; [reflexivity|].
  assert ((len a =? 0) = false) as Hlen.
  { apply Z.eqb_neq. destruct a; [done|]. rewrite len_cons.
    pose proof (len_nonneg a). lia. }
  assert (decodeText (VRaw a) = inr (u8aToString a, 0)) as Hraw
    by (cbn [decodeText]; by rewrite Hlen).
  enough (((exists e, decodeText (VU8a a) = inl e)
           <-> (MAX_LENGTH < (compactFromU8a a).2
                \/ len a < (compactFromU8a a).1 + (compactFromU8a a).2))
          /\ ((compactFromU8a a).2 <= MAX_LENGTH ->
              (compactFromU8a a).1 + (compactFromU8a a).2 <= len a ->
              decodeText (VU8a a)
              = inr (u8aToString (subarray a (compactFromU8a a).1
                                    ((compactFromU8a a).1 + (compactFromU8a a).2)),
                     (compactFromU8a a).1 + (compactFromU8a a).2)))
    as [H1 H2] by done.
  unfold decodeText, toNumber, MAX_LENGTH. rewrite Hlen.
  destruct (compactFromU8a a) as [offset length]. cbn [fst snd].
  assert (128 * 1024 < 2 ^ 53) as Hc by reflexivity.
  destruct (Z.ltb_spec length (2 ^ 53)) as [Hs|Hs].
  - destruct (Z.leb_spec length (128 * 1024)) as [Hm|Hm]; cbn [negb].
    + destruct (Z.leb_spec (offset + length) (len a)) as [Ht|Ht]; cbn [negb].
      * split; [|done]. split; [intros [e He]; discriminate|lia].
      * split; [|lia]. split; [right; lia|eauto].
    + split; [|lia]. split; [left; lia|eauto].
  - split; [|lia]. split; [left; lia|eauto].
Qed.

(** C8.  [setOverride] is for display only: the encoding of the text,
    bare or prefixed, its encoded length, its hex form, its string and
    whether it is empty stay what they were; [toString], and with it
    [toJSON] and [toHuman], gives the override (the string itself when the
    override is empty). *)
Theorem setOverride_display_only (t : Text) (s : JSString) (isBare : bool) :
  toU8a (setOverride t s) isBare = toU8a t isBare
  /\ encodedLength (setOverride t s) = encodedLength t
  /\ toHex (setOverride t s) = toHex t
  /\ str (setOverride t s) = str t
  /\ initialU8aLength (setOverride t s) = initialU8aLength t
  /\ isEmpty (setOverride t s) = isEmpty t
  /\ toString (setOverride t s) = (if len s =? 0 then str t else s)
  /\ toJSON (setOverride t s) = toString (setOverride t s)
  /\ toHuman (setOverride t s) = toString (setOverride t s).
Proof.
  repeat split. unfold toString, setOverride. cbn [override str].
  by destruct s.
Qed.

(** C10.  [toHex] is the hex form of the bare encoding; the prefixed
    encoding is that encoding after a prefix that is not empty, so the
    hex form of the prefixed encoding is another string, for every
    text. *)
Theorem toHex_is_bare (t : Text) :
  toHex t = u8aToHex (toU8a t true)
  /\ toU8a t false = compactToU8a (len (toU8a t true)) ++ toU8a t true
  /\ toHex t <> u8aToHex (toU8a t false).
Proof.
  split; [reflexivity|]. split; [reflexivity|].
  unfold toHex. intros E. apply (f_equal (@length Z)) in E.
  rewrite !u8aToHex_length, toU8a_prefixed, length_app in E.
  pose proof (compactToU8a_len_pos (len (toU8a t true))) as Hpre.
  unfold len in *. lia.
Qed.

End WithUtil.
End TextFacts.

Example text_decode_abc :
  Text.decodeText (Text.VU8a [12; 97; 98; 99]) = inr (js "abc", 4).
Proof. reflexivity. Qed.

Example text_decode_trailing :
  Text.decodeText (Text.VU8a [8; 97; 98; 99]) = inr (js "ab", 3).
Proof. reflexivity. Qed.

Example text_decode_short :
  Text.decodeText (Text.VU8a [16; 97; 98; 99]) = inl (TextLengthRemainder 5 4).
Proof. reflexivity. Qed.

Example text_decode_raw :
  Text.decodeText (Text.VRaw [12; 97; 98; 99]) = inr (12 :: js "abc", 0).
Proof. reflexivity. Qed.

Example text_decode_hex :
  Text.decodeText (Text.VString (js "0x6162")) = inr (js "ab", 0).
Proof. reflexivity. Qed.

Example text_toU8a_abc :
  Text.toU8a (Text.mkText (js "abc") 0 None) false = [12; 97; 98; 99].
Proof. reflexivity. Qed.

(** C1, as it is stated, fails: the text read back from the encoding of a
    text with a display override is not [eq] to it, since the encoding
    keeps the string and [eq] compares what [toString] shows. *)
Lemma Text_round_trip_override :
  Text.new (Text.VU8a (Text.toU8a overridden false))
  = inr (Text.mkText (js "abc") 4 None)
  /\ Text.eq (Text.mkText (js "abc") 4 None) (Text.VText overridden) = false.
Proof. split; reflexivity. Qed.

(** What counts as well formed: a prefix that is not the shortest one for
    its length, and bytes after the body, are read without complaint and
    are not there when the text is encoded again. *)
Remark Text_not_canonical :
  Text.new (Text.VU8a [5; 0; 97]) = inr (Text.mkText (js "a") 3 None)
  /\ Text.new (Text.VU8a [4; 97; 98]) = inr (Text.mkText (js "a") 2 None)
  /\ Text.toU8a (Text.mkText (js "a") 3 None) false = [4; 97].
Proof. repeat split. Qed.

(** A lone surrogate is not reproduced by the text encoder, and the text
    is not read back. *)
Remark Text_round_trip_surrogate :
  Text.new (Text.VU8a (Text.toU8a (Text.mkText [0xD800] 0 None) false))
  = inr (Text.mkText [0xFFFD] 4 None)
  /\ Text.eq (Text.mkText [0xFFFD] 4 None)
       (Text.VText (Text.mkText [0xD800] 0 None)) = false.
Proof. split; reflexivity. Qed.

Lemma Text_round_trip_witness :
  (Text.toString abc = Text.str abc
   /\ len (stringToU8a (Text.str abc)) <= Text.MAX_LENGTH
   /\ u8aToString (stringToU8a (Text.str abc)) = Text.str abc
   /\ len [104; 105] <= Text.MAX_LENGTH
   /\ stringToU8a (u8aToString [104; 105]) = [104; 105])
  /\ (exists t, Text.new (Text.VU8a (Text.toU8a abc false)) = inr t
                /\ Text.eq t (Text.VText abc) = true
                /\ Text.eq abc (Text.VText t) = true
                /\ Text.str t = Text.str abc
                /\ Text.initialU8aLength t = len (Text.toU8a abc false))
  /\ (exists t, Text.new (Text.VU8a (Compact.compactAddLength [104; 105])) = inr t
                /\ Text.toU8a t false = Compact.compactAddLength [104; 105]
                /\ Text.toU8a t true = [104; 105]
                /\ Text.initialU8aLength t = len (Compact.compactAddLength [104; 105])).
Proof.
  assert (len (stringToU8a (Text.str abc)) <= Text.MAX_LENGTH) as H1
    by (vm_compute; discriminate).
  assert (len [104; 105] <= Text.MAX_LENGTH) as H2 by (vm_compute; discriminate).
  split; [repeat split; (reflexivity || assumption)|].
  apply (TextFacts.Text_round_trip abc [104; 105]); (reflexivity || assumption).
Defined.

(** C6, as it is stated, fails: the bytes of a [Raw] are not empty and
    begin like a prefix that declares four bytes where three follow, and
    they are decoded, whole, with nothing consumed. *)
Lemma decodeText_raw :
  Compact.compactFromU8a [16; 97; 98; 99] = (1, 4)
  /\ len [16; 97; 98; 99] < 1 + 4
  /\ Text.decodeText (Text.VRaw [16; 97; 98; 99]) = inr (16 :: js "abc", 0).
Proof. repeat split. Qed.

Lemma decodeText_bounds_witness :
  [16; 97; 98; 99] <> []
  /\ Text.decodeText (Text.VU8a []) = inr ([], 0)
  /\ Text.decodeText (Text.VRaw []) = inr ([], 0)
  /\ ((exists e, Text.decodeText (Text.VU8a [16; 97; 98; 99]) = inl e)
      <-> (Text.MAX_LENGTH < 4 \/ len [16; 97; 98; 99] < 1 + 4))
  /\ (4 <= Text.MAX_LENGTH -> 1 + 4 <= len [16; 97; 98; 99] ->
      Text.decodeText (Text.VU8a [16; 97; 98; 99])
      = inr (u8aToString (subarray [16; 97; 98; 99] 1 (1 + 4)), 1 + 4))
  /\ Text.decodeText (Text.VRaw [16; 97; 98; 99])
     = inr (u8aToString [16; 97; 98; 99], 0).
Proof.
  assert ([16; 97; 98; 99] <> []) as H by discriminate.
  split; [exact H|].
  exact (TextFacts.decodeText_bounds [16; 97; 98; 99] H).
Defined.

(** C8, as it is stated, fails for the empty string: after
    [setOverride('')] the text shows its own string, not the override; an
    empty string is falsy in [this.#override || super.toString()]. *)
Lemma setOverride_empty :
  Text.override (Text.setOverride abc []) = Some []
  /\ Text.toString (Text.setOverride abc []) = js "abc"
  /\ Text.toString (Text.setOverride abc []) <> [].
Proof. repeat split. discriminate. Qed.

(** ** Metadata *)

Module MetadataFacts.
Import Metadata.

Section WithVersioned.
Context {util : TextUtil}.
Variables M Obj : Type.
Variable newVersioned : U8a -> result M.
Variable newVersionedOf : Value Obj -> result M.

Lemma len_insert (a : U8a) (i : nat) (b : Z) : len (<[i := b]> a) = len a.
Proof. unfold len. by rewrite length_insert. Qed.

Lemma toU8aTarget_idem (s : Store) (t : Target) :
  toU8aTarget s (toU8aTarget s t) = toU8aTarget s t.
Proof.
  unfold toU8aTarget.
  destruct (Z.eqb_spec (len (read s t)) 0) as [E|E].
  - by destruct (len (read s TEmptyMetadata) =? 0).
  - destruct (Z.eqb_spec (len (read s t)) 0); [done|reflexivity].
Qed.

Lemma read_write (s : Store) (t : Target) (i : nat) (b : Z) :
  read (write s t i b) t = <[i := b]> (read s t).
Proof. by destruct t. Qed.

(** After the version byte is set, the array is its own [toU8a] and its
    version is no longer 9. *)
Lemma toU8aTarget_write (s : Store) (t : Target) (b : Z) :
  read s t !! VERSION_IDX = Some 9 ->
  toU8aTarget (write s t VERSION_IDX b) t = t.
Proof.
  intros Hv. unfold toU8aTarget. rewrite read_write, len_insert.
  destruct (Z.eqb_spec (len (read s t)) 0) as [E|_]; [|done].
  unfold len in E. destruct (read s t); [done|cbn in E; lia].
Qed.

(** One step of [decodeU8a] with the retry written out: the outcome of any
    depth of at least [DEPTH]. *)
Lemma decodeU8a_fuel (fuel : nat) (s : Store) (_value : Target) (tried : list U8a) :
  (DEPTH <= fuel)%nat ->
  let value := toU8aTarget s _value in
  let bytes := read s value in
  decodeU8a M newVersioned fuel s _value tried =
    match newVersioned bytes with
    | inr m => mkOutcome (Some (inr m)) s (tried ++ [bytes])
    | inl error =>
        if bool_decide (bytes !! VERSION_IDX = Some 9)
        then mkOutcome (Some (newVersioned (<[VERSION_IDX := 10]> bytes)))
               (write s value VERSION_IDX 10)
               (tried ++ [bytes; <[VERSION_IDX := 10]> bytes])
        else mkOutcome (Some (inl error)) s (tried ++ [bytes])
    end.
Proof.
  unfold DEPTH. intros Hfuel. destruct fuel as [|[|fuel]]; [lia|lia|].
  cbn zeta. cbn [decodeU8a].
  destruct (newVersioned (read s (toU8aTarget s _value))) as [error|m] eqn:E1;
    [|done].
  case_bool_decide as Hv; [|done].
  rewrite (toU8aTarget_write _ _ _ Hv), read_write.
  rewrite list_lookup_insert_eq
    by (apply lookup_lt_is_Some; eauto).
  rewrite <- app_assoc. cbn [app].
  destruct (newVersioned (<[VERSION_IDX:=10]> (read s (toU8aTarget s _value))));
    [|done].
  by rewrite bool_decide_eq_false_2.
Qed.

(** The recursion is never cut off. *)
Lemma decodeU8a_returns (fuel : nat) (s : Store) (_value : Target) (tried : list U8a) :
  (DEPTH <= fuel)%nat ->
  returned (decodeU8a M newVersioned fuel s _value tried) <> None.
Proof.
  intros Hfuel. rewrite decodeU8a_fuel by done. cbn zeta.
  destruct (newVersioned _); [|done]. by case_bool_decide.
Qed.

(** C2.  The fallback of [decodeMetadata] on a blob that fails to decode:
    when its version byte (index 4) is 9, the byte is set to 10 in the
    array and the array is decoded once more, and what this one retry
    gives, a value or a failure, is the outcome; when its version byte is
    not 9 the failure is the outcome, as it was thrown, and nothing is
    retried.  The decoder is called on the bytes in [attempts] and on
    nothing else, whatever depth the recursion is allowed. *)
Theorem decodeMetadata_fallback (emptyMetadata a : U8a) (error : Error) (fuel : nat) :
  a <> [] ->
  newVersioned a = inl error ->
  (DEPTH <= fuel)%nat ->
  let retried := <[VERSION_IDX := 10]> a in
  let outcome :=
    if bool_decide (a !! VERSION_IDX = Some 9)
    then mkOutcome (Some (newVersioned retried))
           (mkStore emptyMetadata retried) [a; retried]
    else mkOutcome (Some (inl error)) (mkStore emptyMetadata a) [a] in
  decodeMetadata M Obj newVersioned newVersionedOf emptyMetadata (VU8a a) = outcome
  /\ decodeU8a M newVersioned fuel (mkStore emptyMetadata a) TValue [] = outcome.
Proof.
  intros Ha Herr Hfuel. cbn zeta.
  assert (toU8aTarget (mkStore emptyMetadata a) TValue = TValue) as Ht.
  { unfold toU8aTarget. cbn [read valueArray].
    destruct (Z.eqb_spec (len a) 0) as [E|_]; [|done].
    unfold len in E. destruct a; [done|cbn in E; lia]. }
  assert (forall n, (DEPTH <= n)%nat ->
            decodeU8a M newVersioned n (mkStore emptyMetadata a) TValue [] =
            if bool_decide (a !! VERSION_IDX = Some 9)
            then mkOutcome (Some (newVersioned (<[VERSION_IDX := 10]> a)))
                   (mkStore emptyMetadata (<[VERSION_IDX := 10]> a))
                   [a; <[VERSION_IDX := 10]> a]
            else mkOutcome (Some (inl error)) (mkStore emptyMetadata a) [a]) as H.
  { intros n Hn. rewrite decodeU8a_fuel by done. cbn zeta.
    rewrite Ht. cbn [read valueArray]. rewrite Herr.
    by case_bool_decide. }
  split; [|by apply H]. unfold decodeMetadata. by apply H.
Qed.

(** A construction leaves the module's constant as it is when the
    constant decodes. *)
Lemma decodeU8a_emptyMetadata (fuel : nat) (s : Store) (tried : list U8a) (m : M) :
  newVersioned (emptyMetadata s) = inr m ->
  emptyMetadata (store (decodeU8a M newVersioned fuel s TValue tried))
  = emptyMetadata s.
Proof.
  intros Hm. revert s tried Hm.
  induction fuel as [|fuel IH]; intros s tried Hm; [done|].
  cbn [decodeU8a]. unfold toU8aTarget.
  destruct (len (read s TValue) =? 0).
  - cbn [read]. by rewrite Hm.
  - destruct (newVersioned (read s TValue)); [|done].
    case_bool_decide; [|done]. by rewrite IH.
Qed.

Lemma decodeMetadata_emptyMetadata (em : U8a) (v : Value Obj) (m : M) :
  newVersioned em = inr m ->
  emptyMetadata (store (decodeMetadata M Obj newVersioned newVersionedOf em v)) = em.
Proof.
  intros Hm. unfold decodeMetadata.
  destruct v as [|a|s|o]; try by apply decodeU8a_emptyMetadata with m.
  - destruct (isHex s); [by apply decodeU8a_emptyMetadata with m|].
    by destruct (len s =? 0).
  - done.
Qed.

Lemma decodeAll_emptyMetadata (em : U8a) (values : list (Value Obj)) (m : M) :
  newVersioned em = inr m ->
  decodeAll M Obj newVersioned newVersionedOf em values = em.
Proof.
  intros Hm. induction values as [|v values IH]; [done|].
  cbn [decodeAll]. by rewrite (decodeMetadata_emptyMetadata _ _ m).
Qed.

Lemma toU8a_empty (em : U8a) (v : Value Obj) :
  isEmptyValue Obj v = true -> toU8a Obj em v = inr em.
Proof.
  destruct v as [|a|s|o]; cbn; unfold toU8aTarget; cbn [read valueArray].
  - done.
  - by intros ->.
  - intros [-> ->]%andb_true_iff. done.
  - done.
Qed.

(** C9.  The empty metadata: for no value, for an array without bytes and
    for a hex string without digits, [toU8a] gives the bytes
    [6d 65 74 61 09] of [EMPTY_METADATA] and does not throw; and, the
    constant being decodable, this stays so after any constructions made
    before, and the construction returns what the constant decodes to,
    in one attempt. *)
Theorem empty_metadata_sentinel (v : Value Obj) :
  isEmptyValue Obj v = true ->
  toU8a Obj EMPTY_METADATA v = inr [0x6d; 0x65; 0x74; 0x61; 9]
  /\ (forall (values : list (Value Obj)) (m : M),
        newVersioned EMPTY_METADATA = inr m ->
        let constant := decodeAll M Obj newVersioned newVersionedOf EMPTY_METADATA values in
        let outcome := decodeMetadata M Obj newVersioned newVersionedOf constant v in
        toU8a Obj constant v = inr [0x6d; 0x65; 0x74; 0x61; 9]
        /\ returned outcome = Some (inr m)
        /\ attempts outcome = [[0x6d; 0x65; 0x74; 0x61; 9]]).
Proof.
  intros Hv. split; [by apply toU8a_empty|].
  intros values m Hm. cbn zeta.
  rewrite (decodeAll_emptyMetadata _ _ m) by done.
  split; [by apply toU8a_empty|].
  assert (forall a, len a = 0 ->
            decodeU8a M newVersioned DEPTH (mkStore EMPTY_METADATA a) TValue []
            = mkOutcome (Some (inr m)) (mkStore EMPTY_METADATA a) [EMPTY_METADATA]) as H.
  { intros a Ha. rewrite decodeU8a_fuel by done. cbn zeta.
    unfold toU8aTarget. cbn [read valueArray]. rewrite Ha. cbn [Z.eqb read emptyMetadata].
    by rewrite Hm. }
  destruct v as [|a|s|o]; cbn in Hv; unfold decodeMetadata.
  - by rewrite H.
  - apply Z.eqb_eq in Hv. by rewrite H.
  - apply andb_true_iff in Hv as [-> Hv%Z.eqb_eq]. by rewrite H.
  - done.
Qed.

End WithVersioned.
End MetadataFacts.

Example decodeMetadata_v9_as_v10 :
  Metadata.decodeMetadata U8a unit onlyV10 noObjects Metadata.EMPTY_METADATA
    (Metadata.VU8a mislabelled)
  = Metadata.mkOutcome (Some (inr [0x6d; 0x65; 0x74; 0x61; 10; 0]))
      (Metadata.mkStore Metadata.EMPTY_METADATA [0x6d; 0x65; 0x74; 0x61; 10; 0])
      [mislabelled; [0x6d; 0x65; 0x74; 0x61; 10; 0]].
Proof. reflexivity. Qed.

Example decodeMetadata_v8_fails :
  Metadata.decodeMetadata U8a unit onlyV10 noObjects Metadata.EMPTY_METADATA
    (Metadata.VU8a [0x6d; 0x65; 0x74; 0x61; 8; 0])
  = Metadata.mkOutcome (Some (inl (DecodeFailure "unsupported version")))
      (Metadata.mkStore Metadata.EMPTY_METADATA [0x6d; 0x65; 0x74; 0x61; 8; 0])
      [[0x6d; 0x65; 0x74; 0x61; 8; 0]].
Proof. reflexivity. Qed.

Example decodeMetadata_hex :
  Metadata.returned
    (Metadata.decodeMetadata U8a unit onlyV10 noObjects Metadata.EMPTY_METADATA
       (Metadata.VString (js "0x6d6574610900")))
  = Some (inr [0x6d; 0x65; 0x74; 0x61; 10; 0]).
Proof. reflexivity. Qed.

Lemma decodeMetadata_fallback_witness :
  (mislabelled <> []
   /\ onlyV10 mislabelled = inl (DecodeFailure "unsupported version")
   /\ (Metadata.DEPTH <= 7)%nat)
  /\ Metadata.decodeMetadata U8a unit onlyV10 noObjects Metadata.EMPTY_METADATA
       (Metadata.VU8a mislabelled)
     = Metadata.mkOutcome (Some (inr [0x6d; 0x65; 0x74; 0x61; 10; 0]))
         (Metadata.mkStore Metadata.EMPTY_METADATA [0x6d; 0x65; 0x74; 0x61; 10; 0])
         [mislabelled; [0x6d; 0x65; 0x74; 0x61; 10; 0]]
  /\ Metadata.decodeU8a U8a onlyV10 7
       (Metadata.mkStore Metadata.EMPTY_METADATA mislabelled) Metadata.TValue []
     = Metadata.mkOutcome (Some (inr [0x6d; 0x65; 0x74; 0x61; 10; 0]))
         (Metadata.mkStore Metadata.EMPTY_METADATA [0x6d; 0x65; 0x74; 0x61; 10; 0])
         [mislabelled; [0x6d; 0x65; 0x74; 0x61; 10; 0]].
Proof.
  assert (mislabelled <> []) as H1 by discriminate.
  assert (Metadata.DEPTH <= 7)%nat as H2 by (unfold Metadata.DEPTH; lia).
  split; [repeat split; (reflexivity || assumption)|].
  assert (onlyV10 mislabelled = inl (DecodeFailure "unsupported version")) as H3
    by reflexivity.
  exact (MetadataFacts.decodeMetadata_fallback U8a unit onlyV10 noObjects
           Metadata.EMPTY_METADATA mislabelled
           (DecodeFailure "unsupported version") 7 H1 H3 H2).
Defined.

Lemma empty_metadata_sentinel_witness :
  Metadata.isEmptyValue unit (Metadata.VString (js "0x")) = true
  /\ Metadata.toU8a unit Metadata.EMPTY_METADATA (Metadata.VString (js "0x"))
     = inr [0x6d; 0x65; 0x74; 0x61; 9]
  /\ Metadata.returned
       (Metadata.decodeMetadata U8a unit v9v10 noObjects
          (Metadata.decodeAll U8a unit v9v10 noObjects Metadata.EMPTY_METADATA
             [Metadata.VU8a mislabelled; Metadata.VUndefined])
          (Metadata.VString (js "0x")))
     = Some (inr Metadata.EMPTY_METADATA).
Proof.
  assert (Metadata.isEmptyValue unit (Metadata.VString (js "0x")) = true) as Hv
    by reflexivity.
  assert (v9v10 Metadata.EMPTY_METADATA = inr Metadata.EMPTY_METADATA) as Hm
    by reflexivity.
  split; [exact Hv|].
  destruct (MetadataFacts.empty_metadata_sentinel U8a unit v9v10 noObjects
              (Metadata.VString (js "0x")) Hv) as [H1 H2].
  split; [exact H1|].
  exact (proj1 (proj2 (H2 [Metadata.VU8a mislabelled; Metadata.VUndefined]
                          Metadata.EMPTY_METADATA Hm))).
Defined.

(** That the constant decodes is needed for the sentinel to stay.  The
    constant is one array for all constructions: with a decoder that
    refuses it as version 9, which the versioned decoders of the spec do
    not, the retry writes version 10 into the constant itself, and the next
    empty value is given those bytes. *)
Remark empty_metadata_shared :
  Metadata.decodeAll U8a unit onlyV10 noObjects Metadata.EMPTY_METADATA
    [Metadata.VUndefined]
  = [0x6d; 0x65; 0x74; 0x61; 10]
  /\ Metadata.toU8a unit
       (Metadata.decodeAll U8a unit onlyV10 noObjects Metadata.EMPTY_METADATA
          [Metadata.VUndefined])
       (Metadata.VU8a [])
     = inr [0x6d; 0x65; 0x74; 0x61; 10].
Proof. split; reflexivity. Qed.

(** ** Extrinsic *)

Module ExtrinsicFacts.
Import Compact CompactFacts Extrinsic.

(** The format of a version byte is a number of seven bits. *)
Lemma format_range (v : Z) : 0 <= Z.land v UNMASK_VERSION < 128.
Proof.
  unfold UNMASK_VERSION. change 0x7f with (Z.ones 7).
  rewrite Z.land_ones by lia. apply Z.mod_pos_bound. lia.
Qed.

(** Only format 4 has a class of its own. *)
Lemma typeOf_spec (v : Z) :
  typeOf (Some v) =
    if Z.land v UNMASK_VERSION =? 4 then ExtrinsicV4 else ExtrinsicUnknown.
Proof.
  unfold typeOf, band. pose proof (format_range v) as Hr.
  destruct (Z.eqb_spec (Z.land v UNMASK_VERSION) 4) as [->|Hne]; [reflexivity|].
  destruct (Z.to_nat (Z.land v UNMASK_VERSION)) as [|[|[|[|[|n]]]]] eqn:E;
    try reflexivity.
  lia.
Qed.

Lemma typeOf_undefined : typeOf None = ExtrinsicUnknown.
Proof. reflexivity. Qed.

(** The version byte of a format of seven bits is a byte. *)
Lemma lor_signed_range (t : Z) (signed : bool) :
  0 <= t < 128 ->
  0 <= Z.lor t (if signed then BIT_SIGNED else BIT_UNSIGNED) < 256.
Proof.
  intros Ht. destruct signed; unfold BIT_SIGNED, BIT_UNSIGNED.
  - split; [apply Z.lor_nonneg; lia|].
    destruct (Z.eq_dec t 0) as [->|Hne]; [reflexivity|].
    apply Z.log2_lt_cancel. rewrite Z.log2_lor by lia.
    change (Z.log2 0x80) with 7. change (Z.log2 256) with 8.
    assert (Z.log2 t < 7)
      by (apply (proj1 (Z.log2_lt_pow2 t 7 ltac:(lia))); change (2 ^ 7) with 128; lia).
    lia.
  - rewrite Z.lor_0_r. lia.
Qed.

Section WithRegistry.
Variable Raw : Type.
Variable rawVersion : Raw -> Z.
Variable rawIsSigned : Raw -> bool.
Variable rawToU8a : Raw -> U8a.
Variable Payload : Type.
Variable createType : TypeName -> Payload + U8a -> bool -> option Z -> result Raw.

Local Abbreviation version := (version Raw rawVersion rawIsSigned).
Local Abbreviation type := (type Raw rawVersion).
Local Abbreviation isSigned := (isSigned Raw rawIsSigned).
Local Abbreviation toU8a := (toU8a Raw rawVersion rawIsSigned rawToU8a).
Local Abbreviation _newFromValue := (_newFromValue Raw Payload createType).
Local Abbreviation _decodeU8a := (_decodeU8a Raw Payload createType).

(** C3.  The envelope: for an extrinsic whose format version is a number
    of seven bits, [toU8a()] is the compact length of what follows, then
    the version byte, then the encoding of the inner value, the version
    byte being the format version with bit [0x80] set when the extrinsic
    is signed ([0x04] and [0x84] for format 4); [toU8a(true)] is the same
    without the compact length. *)
Theorem toU8a_envelope (e : GenericExtrinsic Raw) :
  0 <= type e < 128 ->
  let versionByte := Z.lor (type e) (if isSigned e then 0x80 else 0) in
  let innerPayload := rawToU8a (_raw Raw e) in
  toU8a e false
  = compactToU8a (len ([versionByte] ++ innerPayload))
      ++ [versionByte] ++ innerPayload
  /\ toU8a e true = [versionByte] ++ innerPayload
  /\ version e = versionByte
  /\ (type e = 4 -> versionByte = if isSigned e then 0x84 else 0x04).
Proof.
  intros Ht. cbn zeta.
  pose proof (lor_signed_range (type e) (isSigned e) Ht) as Hr.
  assert (u8 (version e) = Z.lor (type e) (if isSigned e then 0x80 else 0)) as Hu.
  { unfold u8, Extrinsic.version. by apply Z.mod_small. }
  unfold Extrinsic.toU8a, compactAddLength. rewrite Hu.
  repeat split. intros ->. by destruct (isSigned e).
Qed.

(** Decoding the envelope: the byte after the compact length is the
    version, the rest is what the inner class is made of. *)
Lemma _decodeU8a_envelope (v : Z) (inner : U8a) (version : Z) :
  len inner + 1 < 2 ^ 53 ->
  _decodeU8a (compactAddLength (v :: inner)) version
  = _newFromValue (inr inner) (Some v).
Proof.
  intros Hsafe. rewrite Z.add_comm, <- (len_cons v inner) in Hsafe.
  destruct (compactFromU8a_compactAddLength (v :: inner) Hsafe)
    as (Hread & Hnum & Hlen & Hpos).
  unfold Extrinsic._decodeU8a. rewrite Hread, Hnum, Hlen.
  rewrite Hlen in Hpos. cases_Z.
  unfold compactAddLength. by rewrite subarray_app_r, subarray_tail.
Qed.

(** C7.  A version byte whose format is not 4 (formats 0 to 3 and all
    formats above 4) is dispatched to [ExtrinsicUnknown]: [_newFromValue]
    asks the registry for an [ExtrinsicUnknown] with the signed flag and
    the version, and so does the decoding of an envelope that carries the
    byte.  The decoding checks no version itself and returns what the
    registry gives, a value or the error the class throws. *)
Theorem unknown_versions (v : Z) (value : Payload + U8a) (inner : U8a) (version : Z) :
  Z.land v UNMASK_VERSION <> 4 ->
  len inner + 1 < 2 ^ 53 ->
  typeOf (Some v) = ExtrinsicUnknown
  /\ _newFromValue value (Some v)
     = createType ExtrinsicUnknown value (Z.land v BIT_SIGNED =? BIT_SIGNED) (Some v)
  /\ _decodeU8a (compactAddLength (v :: inner)) version
     = createType ExtrinsicUnknown (inr inner) (Z.land v BIT_SIGNED =? BIT_SIGNED) (Some v).
Proof.
  intros Hv Hsafe.
  assert (typeOf (Some v) = ExtrinsicUnknown) as Ht.
  { rewrite typeOf_spec. by destruct (Z.eqb_spec (Z.land v UNMASK_VERSION) 4). }
  split; [exact Ht|]. split.
  - unfold Extrinsic._newFromValue. by rewrite Ht.
  - rewrite _decodeU8a_envelope by done.
    unfold Extrinsic._newFromValue. by rewrite Ht.
Qed.

(** Format 4 is dispatched to [ExtrinsicV4]. *)
Lemma known_version (v : Z) (value : Payload + U8a) :
  Z.land v UNMASK_VERSION = 4 ->
  _newFromValue value (Some v)
  = createType ExtrinsicV4 value (Z.land v BIT_SIGNED =? BIT_SIGNED) (Some v).
Proof.
  intros Hv. unfold Extrinsic._newFromValue. rewrite typeOf_spec, Hv. reflexivity.
Qed.

End WithRegistry.
End ExtrinsicFacts.

Example extrinsic_unsigned_v4 :
  Extrinsic.toU8a RawModel modelVersion modelIsSigned modelBytes
    (Extrinsic.mkExtrinsic RawModel (mkRaw Extrinsic.ExtrinsicV4 4 false [3; 0; 116]) None)
    false
  = [4 * 4; 4; 3; 0; 116].
Proof. reflexivity. Qed.

Example extrinsic_signed_v4_bare :
  Extrinsic.toU8a RawModel modelVersion modelIsSigned modelBytes
    (Extrinsic.mkExtrinsic RawModel (mkRaw Extrinsic.ExtrinsicV4 4 true [3; 0; 116]) None)
    true
  = [0x84; 3; 0; 116].
Proof. reflexivity. Qed.

Example extrinsic_decode_v4 :
  Extrinsic._decodeU8a RawModel U8a createModel [16; 0x84; 3; 0; 116] 4
  = inr (mkRaw Extrinsic.ExtrinsicV4 4 true [3; 0; 116]).
Proof. reflexivity. Qed.

Example extrinsic_decode_v5 :
  Extrinsic._decodeU8a RawModel U8a createModel [16; 5; 3; 0; 116] 4
  = inr (mkRaw Extrinsic.ExtrinsicUnknown 0 false [3; 0; 116]).
Proof. reflexivity. Qed.

Example extrinsic_decode_short :
  Extrinsic._decodeU8a RawModel U8a createModel [20; 4; 3; 0; 116] 4
  = inl (ExtrinsicLengthRemainder 6 5).
Proof. reflexivity. Qed.

Lemma toU8a_envelope_witness :
  0 <= 4 < 128
  /\ Extrinsic.toU8a RawModel modelVersion modelIsSigned modelBytes
       (Extrinsic.mkExtrinsic RawModel (mkRaw Extrinsic.ExtrinsicV4 4 true [3; 0; 116]) None)
       false
     = Compact.compactToU8a 4 ++ [0x84] ++ [3; 0; 116].
Proof.
  assert (0 <= 4 < 128) as H by lia.
  split; [exact H|].
  exact (proj1 (ExtrinsicFacts.toU8a_envelope RawModel modelVersion modelIsSigned
                  modelBytes
                  (Extrinsic.mkExtrinsic RawModel
                     (mkRaw Extrinsic.ExtrinsicV4 4 true [3; 0; 116]) None) H)).
Defined.

Lemma unknown_versions_witness :
  (Z.land 0x85 Extrinsic.UNMASK_VERSION <> 4 /\ len [3; 0; 116] + 1 < 2 ^ 53)
  /\ Extrinsic.typeOf (Some 0x85) = Extrinsic.ExtrinsicUnknown
  /\ Extrinsic._decodeU8a RawModel U8a createModel
       (Compact.compactAddLength [0x85; 3; 0; 116]) 4
     = createModel Extrinsic.ExtrinsicUnknown (inr [3; 0; 116]) true (Some 0x85).
Proof.
  assert (Z.land 0x85 Extrinsic.UNMASK_VERSION <> 4) as H1 by discriminate.
  assert (len [3; 0; 116] + 1 < 2 ^ 53) as H2 by reflexivity.
  split; [split; assumption|].
  destruct (ExtrinsicFacts.unknown_versions RawModel U8a createModel
              0x85 (inr []) [3; 0; 116] 4 H1 H2) as (Ht & _ & Hd).
  split; [exact Ht|exact Hd].
Defined.

(** C7, as it is stated, fails: with a registry whose [ExtrinsicUnknown]
    refuses what it is given, the decoding of an envelope of format 5
    throws the error of the class. *)
Lemma unknown_version_throws :
  Z.land 0x85 Extrinsic.UNMASK_VERSION = 5
  /\ Extrinsic._decodeU8a RawModel U8a createStrict
       (Compact.compactAddLength [0x85; 3; 0; 116]) 4
     = inl (DecodeFailure "Unsupported extrinsic version").
Proof. split; reflexivity. Qed.

(** ** Derives *)

Module DeriveFacts.
Import Derive.

Lemma includes_elem (a : list string) (q : string) :
  includes a q = true <-> q ∈ a.
Proof.
  unfold includes. rewrite existsb_exists. split.
  - intros (x & Hin & Heq). apply String.eqb_eq in Heq as ->.
    by apply list_elem_of_In.
  - intros Hin. exists q. split; [by apply list_elem_of_In|apply String.eqb_refl].
Qed.



Section WithCreators.
Variables Creator Fn : Type.
Variable call : Creator -> string -> Api -> Fn.

(** The sections of the result are the included sections of the derives,
    in their order. *)
Lemma injectFunctions_keys (instanceId : string) (api : Api)
    (derives : DeriveCustom Creator) :
  map fst (injectFunctions Creator Fn call instanceId api derives)
  = List.filter (isIncluded api) (map fst derives).
Proof.
  unfold injectFunctions.
  induction derives as [|[s methods] derives IH]; [done|].
  cbn [map fst List.filter].
  destruct (isIncluded api s); cbn [map fst]; by rewrite IH.
Qed.

Lemma injectFunctions_elem (instanceId : string) (api : Api)
    (derives : DeriveCustom Creator) (s : string) :
  s ∈ map fst (injectFunctions Creator Fn call instanceId api derives)
  <-> s ∈ map fst derives /\ isIncluded api s = true.
Proof.
  rewrite injectFunctions_keys, !list_elem_of_In. apply filter_In.
Qed.





(** A section of [checks] one of whose instance names is a key of
    [api.query] is in the result. *)
Lemma section_available (instanceId : string) (api : Api)
    (derives : DeriveCustom Creator) (s q : string) (c : Avail) :
  checks !! s = Some c -> q ∈ instances c -> q ∈ queryKeys api ->
  s ∈ map fst derives ->
  s ∈ map fst (injectFunctions Creator Fn call instanceId api derives).
Proof.
  intros Hc Hq Hk Hs. apply injectFunctions_elem. split; [done|].
  unfold isIncluded. rewrite Hc. apply orb_true_iff. left.
  apply existsb_exists. exists q. split; [by apply list_elem_of_In|].
  by apply includes_elem.
Qed.

End WithCreators.
End DeriveFacts.

Example derives_plain :
  map fst (Derive.injectFunctions unit unit (fun _ _ _ => tt) "id" plainApi someDerives)
  = ["accounts"; "elections"; "tx"]%string.
Proof. vm_compute. reflexivity. Qed.

Example derives_alias :
  map fst (Derive.injectFunctions unit unit (fun _ _ _ => tt) "id" aliasApi someDerives)
  = ["accounts"; "council"; "elections"; "tx"]%string.
Proof. vm_compute. reflexivity. Qed.

Lemma someDerives_ownNames : Derive.ownNames someDerives.
Proof.
  unfold Derive.ownNames, Derive.inherited. cbn [map fst someDerives].
  repeat constructor; rewrite !elem_of_cons, elem_of_nil; intros H;
    intuition discriminate.
Qed.



(** ** Extrinsic functions from the metadata *)

Module ObjFacts.
Import Obj.

Lemma get_set_eq {V} (o : t V) (key : string) (v : V) :
  get (set o key v) key = Some v.
Proof.
  induction o as [|[k v'] o IH]; cbn.
  - by rewrite String.eqb_refl.
  - destruct (String.eqb k key) eqn:E; cbn; by rewrite E.
Qed.

Lemma get_set_ne {V} (o : t V) (key key' : string) (v : V) :
  key <> key' -> get (set o key v) key' = get o key'.
Proof.
  intros Hne. induction o as [|[k v'] o IH]; cbn.
  - by apply String.eqb_neq in Hne as ->.
  - destruct (String.eqb k key) eqn:E; cbn.
    + apply String.eqb_eq in E as ->. by apply String.eqb_neq in Hne as ->.
    + by rewrite IH.
Qed.

(** A key that is new is added at the end. *)
Lemma set_new {V} (o : t V) (key : string) (v : V) :
  key ∉ keys o -> set o key v = o ++ [(key, v)].
Proof.
  induction o as [|[k v'] o IH]; cbn; [done|].
  intros Hnew. apply not_elem_of_cons in Hnew as [Hne Hnew].
  apply not_eq_sym, String.eqb_neq in Hne as ->. by rewrite IH.
Qed.

Lemma get_elem {V} (o : t V) (i : nat) (key : string) (v : V) :
  NoDup (keys o) -> o !! i = Some (key, v) -> get o key = Some v.
Proof.
  revert i. induction o as [|[k v'] o IH]; intros i Hnd Hi; [done|].
  cbn in Hnd. apply NoDup_cons in Hnd as [Hk Hnd]. destruct i as [|i]; cbn in *.
  - injection Hi as -> ->. by rewrite String.eqb_refl.
  - destruct (String.eqb k key) eqn:E.
    + apply String.eqb_eq in E as ->. exfalso. apply Hk.
      apply list_elem_of_fmap. exists (key, v). split; [done|].
      by eapply list_elem_of_lookup_2.
    + by eapply IH.
Qed.

End ObjFacts.

Module FromMetadataFacts.
Import FromMetadata ObjFacts.

Section WithMeta.
Variable stringCamelCase : string -> string.
Variable FunctionMetadata : Type.
Variable callName : FunctionMetadata -> string.

Local Abbreviation ModuleMetadata := (ModuleMetadata FunctionMetadata).
Local Abbreviation Method := (Method FunctionMetadata).
Local Abbreviation createUnchecked := (createUnchecked FunctionMetadata).
Local Abbreviation newModule := (newModule stringCamelCase FunctionMetadata callName).
Local Abbreviation fromMetadata := (fromMetadata stringCamelCase FunctionMetadata callName).

Local Abbreviation methodOf := (methodOf stringCamelCase FunctionMetadata callName).
Local Abbreviation declared := (declared stringCamelCase FunctionMetadata callName).

Lemma declared_keys (section : string) (sectionIndex from : nat)
    (callList : list FunctionMetadata) :
  Obj.keys (declared section sectionIndex from callList) = map methodOf callList.
Proof.
  revert from. induction callList as [|c rest IH]; intros from; cbn; [done|].
  f_equal. apply IH.
Qed.

Lemma declared_lookup (section : string) (sectionIndex from : nat)
    (callList : list FunctionMetadata) (j : nat) (c : FunctionMetadata) :
  callList !! j = Some c ->
  declared section sectionIndex from callList !! j
  = Some (methodOf c, createUnchecked section sectionIndex (from + j) c).
Proof.
  revert from j. induction callList as [|c' rest IH]; intros from j Hj; [done|].
  destruct j as [|j]; cbn [declared].
  - cbn in Hj |- *. injection Hj as ->. by rewrite Nat.add_0_r.
  - rewrite lookup_cons_ne_0 by done. cbn [pred].
    rewrite lookup_cons_ne_0 in Hj by done. cbn [pred] in Hj.
    rewrite (IH (S from) j Hj). do 3 f_equal. lia.
Qed.

(** With names that differ, the inner [reduce] adds one function for every
    call, in the order of the calls. *)
Lemma newModule_from (section : string) (sectionIndex from : nat)
    (callList : list FunctionMetadata) (acc : Obj.t Method) :
  NoDup (Obj.keys acc ++ map methodOf callList) ->
  reduceFrom (fun newModule callMetadata methodIndex =>
                Obj.set newModule (stringCamelCase (callName callMetadata))
                  (createUnchecked section sectionIndex methodIndex callMetadata))
    from callList acc
  = acc ++ declared section sectionIndex from callList.
Proof.
  revert from acc. induction callList as [|c rest IH]; intros from acc Hnd.
  - cbn. by rewrite app_nil_r.
  - cbn [reduceFrom declared map] in *.
    assert (methodOf c ∉ Obj.keys acc) as Hnew.
    { apply NoDup_app in Hnd as (_ & Hdisj & _). intros Hin.
      apply (Hdisj _ Hin). by left. }
    fold (methodOf c). rewrite (set_new _ _ _ Hnew), IH.
    + by rewrite <- app_assoc.
    + unfold Obj.keys in *. rewrite map_app. cbn [map fst].
      rewrite <- app_assoc. exact Hnd.
Qed.

Lemma newModule_declared (section : string) (sectionIndex : nat)
    (callList : list FunctionMetadata) :
  NoDup (map methodOf callList) ->
  newModule section sectionIndex callList
  = declared section sectionIndex 0 callList.
Proof.
  intros Hnd. unfold FromMetadata.newModule, reduce.
  by rewrite newModule_from.
Qed.

(** A section stays what it is while modules of other names are added. *)
Lemma fromMetadata_keeps (from : nat) (after : list ModuleMetadata)
    (acc : Obj.t (Obj.t Method)) (section : string) :
  Forall (fun later => stringCamelCase (name _ later) <> section) after ->
  Obj.get
    (reduceFrom (fun result modul sectionIndex =>
                   Obj.set result (stringCamelCase (name _ modul))
                     (newModule (stringCamelCase (name _ modul)) sectionIndex
                        (unwrap _ modul)))
       from after acc)
    section
  = Obj.get acc section.
Proof.
  intros Hafter. revert from acc.
  induction Hafter as [|later after Hne _ IH]; intros from acc; [done|].
  cbn [reduceFrom]. by rewrite IH, get_set_ne.
Qed.

(** The section of a name is the one made for the last module of that
    name, with the index the module has among the modules in the list. *)
Lemma fromMetadata_from (from : nat) (before after : list ModuleMetadata)
    (modul : ModuleMetadata) (acc : Obj.t (Obj.t Method)) :
  Forall (fun later => stringCamelCase (name _ later) <> stringCamelCase (name _ modul)) after ->
  Obj.get
    (reduceFrom (fun result modul sectionIndex =>
                   Obj.set result (stringCamelCase (name _ modul))
                     (newModule (stringCamelCase (name _ modul)) sectionIndex
                        (unwrap _ modul)))
       from (before ++ modul :: after) acc)
    (stringCamelCase (name _ modul))
  = Some (newModule (stringCamelCase (name _ modul)) (from + length before)
            (unwrap _ modul)).
Proof.
  intros Hafter. revert from acc.
  induction before as [|m before IH]; intros from acc.
  - cbn [app reduceFrom length]. rewrite Nat.add_0_r.
    rewrite fromMetadata_keeps by done. apply get_set_eq.
  - cbn [app reduceFrom length]. rewrite IH. do 2 f_equal. lia.
Qed.

(** C4, as the code has it.  The functions of a module: for a module
    that has calls, that no later module with calls shares its section
    name with and whose calls have names that differ, the result holds,
    under the lower-camel-cased name of the module, one function for every
    call in the order the calls are declared, and the function of the call
    at position [j] is bound to [(k, j)], where [k] is the position of the
    module among the modules that have calls. *)
Theorem fromMetadata_binding (extrinsics : Obj.t (Obj.t Method))
    (modules : list ModuleMetadata) (k : nat) (modul : ModuleMetadata)
    (callList : list FunctionMetadata) :
  List.filter (isSome _) modules !! k = Some modul ->
  calls _ modul = Some callList ->
  (forall k' later, (k < k')%nat ->
     List.filter (isSome _) modules !! k' = Some later ->
     stringCamelCase (name _ later) <> stringCamelCase (name _ modul)) ->
  NoDup (map methodOf callList) ->
  let section := stringCamelCase (name _ modul) in
  Obj.get (fromMetadata extrinsics modules) section
  = Some (declared section k 0 callList)
  /\ Obj.keys (declared section k 0 callList) = map methodOf callList
  /\ (forall j c, callList !! j = Some c ->
        Obj.get (declared section k 0 callList) (methodOf c)
        = Some (createUnchecked section k j c)).
Proof.
  intros Hk Hcalls Hlast Hnd. cbn zeta.
  pose proof (take_drop_middle _ _ _ Hk) as Hsplit.
  assert (length (take k (List.filter (isSome _) modules)) = k) as Hlen.
  { apply length_take_le. apply lookup_lt_Some in Hk. lia. }
  split; [|split].
  - unfold FromMetadata.fromMetadata, reduce. rewrite <- Hsplit.
    rewrite fromMetadata_from.
    + rewrite Hlen. cbn [Nat.add]. unfold unwrap. rewrite Hcalls. cbn [default].
      by rewrite newModule_declared.
    + apply Forall_lookup. intros i later Hi.
      rewrite lookup_drop in Hi. apply (Hlast (S k + i)%nat); [lia|done].
  - apply declared_keys.
  - intros j c Hj. eapply get_elem.
    + by rewrite declared_keys.
    + by rewrite (declared_lookup _ _ _ _ _ _ Hj).
Qed.

End WithMeta.
End FromMetadataFacts.

Example fromMetadata_two :
  FromMetadata.fromMetadata id string id [] [timestampModule; balancesModule]
  = [ ("timestamp"%string,
       [("set"%string, FromMetadata.createUnchecked string "timestamp" 0 0 "set")]);
      ("balances"%string,
       [("transfer"%string, FromMetadata.createUnchecked string "balances" 1 0 "transfer");
        ("setBalance"%string, FromMetadata.createUnchecked string "balances" 1 1 "setBalance")]) ].
Proof. reflexivity. Qed.

(** C4, as it is stated, fails: [timestamp] is at position 1 of the
    module list, after a module without calls, and its function is bound
    to section index 0, its position among the modules that have calls. *)
Lemma fromMetadata_position :
  [systemModule; timestampModule] !! 1%nat = Some timestampModule
  /\ Obj.get (FromMetadata.fromMetadata id string id [] [systemModule; timestampModule])
       "timestamp"
     = Some [("set"%string, FromMetadata.createUnchecked string "timestamp" 0 0 "set")].
Proof. split; reflexivity. Qed.

Lemma fromMetadata_binding_witness :
  (List.filter (FromMetadata.isSome string) [systemModule; timestampModule; balancesModule] !! 1%nat
   = Some balancesModule
   /\ FromMetadata.calls string balancesModule = Some ["transfer"; "setBalance"]%string
   /\ NoDup (map (FromMetadata.methodOf id string id) ["transfer"; "setBalance"]%string))
  /\ Obj.get
       (FromMetadata.fromMetadata id string id []
          [systemModule; timestampModule; balancesModule])
       "balances"
     = Some (FromMetadata.declared id string id "balances" 1 0 ["transfer"; "setBalance"]%string).
Proof.
  assert (List.filter (FromMetadata.isSome string)
            [systemModule; timestampModule; balancesModule] !! 1%nat
          = Some balancesModule) as H1 by reflexivity.
  assert (FromMetadata.calls string balancesModule = Some ["transfer"; "setBalance"]%string)
    as H2 by reflexivity.
  assert (NoDup (map (FromMetadata.methodOf id string id) ["transfer"; "setBalance"]%string))
    as H3.
  { cbn. repeat constructor; rewrite ?elem_of_cons, ?elem_of_nil; intros H; intuition discriminate. }
  split; [by repeat split|].
  refine (proj1 (FromMetadataFacts.fromMetadata_binding id string id []
                   [systemModule; timestampModule; balancesModule] 1 balancesModule
                   ["transfer"; "setBalance"]%string H1 H2 _ H3)).
  intros k' later Hk' Hlater. destruct k' as [|[|[|k']]]; try lia; discriminate.
Defined.


(** ** The text codec of the platform on ASCII *)

Module Utf8Facts.
Import Utf8.

Lemma encode_ascii (s : JSString) : isAscii s -> encode s = s.
Proof.
  induction 1 as [|c s Hc _ IH]; [done|].
  cbn [encode]. unfold isHigh, isLow.
  destruct (Z.leb_spec 0xD800 c); [lia|]. cbn [andb].
  destruct (Z.leb_spec 0xDC00 c); [lia|]. cbn [andb].
  unfold encodeScalar. destruct (Z.ltb_spec c 0x80); [|lia].
  cbn [app]. by rewrite IH.
Qed.

Lemma decodeFrom_ascii (s : U8a) :
  isAscii s -> decodeFrom 0 0 0x80 0xBF s = s.
Proof.
  induction 1 as [|c s Hc _ IH]; [done|].
  cbn [decodeFrom]. destruct (Z.leb_spec c 0x7F); [|lia]. by rewrite IH.
Qed.

Lemma decode_ascii (s : U8a) : isAscii s -> decode s = s.
Proof.
  intros Hs. rewrite <- (decodeFrom_ascii s Hs) at 2.
  destruct Hs as [|c rest Hc _]; [done|].
  unfold decode.
  destruct c as [|p|p]; try reflexivity.
  do 8 (destruct p as [p|p|]; try reflexivity); lia.
Qed.

(** ASCII strings are reproduced, in both directions. *)
Lemma ascii_reproduced (s : JSString) :
  isAscii s ->
  u8aToString (stringToU8a s) = s /\ stringToU8a (u8aToString s) = s.
Proof.
  intros Hs. cbn [u8aToString stringToU8a util].
  by rewrite (encode_ascii s Hs), (decode_ascii s Hs), (encode_ascii s Hs).
Qed.

Lemma isAscii_repeat (c : Z) (n : nat) : 0 <= c < 128 -> isAscii (repeat c n).
Proof. intros Hc. induction n; cbn; by constructor. Qed.

End Utf8Facts.

(** A text of one byte more than [MAX_LENGTH] is encoded, and its encoding
    is refused when it is read back. *)
Remark Text_round_trip_too_long :
  Text.new (Text.VU8a (Text.toU8a (Text.mkText (repeat 97 (Z.to_nat 131073)) 0 None) false))
  = inl (TextLengthExceeds 131073).
Proof.
  assert (len (repeat 97 (Z.to_nat 131073)) = 131073) as Hlen.
  { unfold len. rewrite repeat_length. apply Z2Nat.id. lia. }
  unfold Text.new, Text.toU8a. cbn [Text.str stringToU8a Utf8.util].
  rewrite Utf8Facts.encode_ascii by (apply Utf8Facts.isAscii_repeat; lia).
  rewrite TextFacts.decodeText_too_long; rewrite Hlen; [done| |]; reflexivity.
Qed.

(** * Further properties of the code *)

(** ** Text: what a caller of the decoder can rely on *)

Module CompactRange.
Import Compact CompactFacts.

Lemma isBytes_take (a : U8a) (n : nat) : isBytes a -> isBytes (take n a).
Proof. unfold isBytes. apply Forall_take. Qed.

Lemma isBytes_drop (a : U8a) (n : nat) : isBytes a -> isBytes (drop n a).
Proof. unfold isBytes. apply Forall_drop. Qed.

Lemma isBytes_subarray (a : U8a) (i j : Z) : isBytes a -> isBytes (subarray a i j).
Proof. intros Ha. unfold subarray. by apply isBytes_take, isBytes_drop. Qed.

Lemma u8aToBn_nonneg (a : U8a) : isBytes a -> 0 <= u8aToBn a.
Proof. induction 1 as [|b a Hb _ IH]; cbn [u8aToBn]; lia. Qed.

Lemma byteAt_range (a : U8a) (i : Z) : isBytes a -> 0 <= byteAt a i < 256.
Proof.
  intros Ha. unfold byteAt.
  destruct (nth_in_or_default (Z.to_nat i) a 0) as [Hin| ->]; [|lia].
  unfold isBytes in Ha. rewrite Forall_forall in Ha.
  by apply Ha, list_elem_of_In.
Qed.

(** On bytes, a prefix is at least one byte wide and declares a number
    that is not negative. *)
Lemma compactFromU8a_range (a : U8a) :
  isBytes a -> 1 <= (compactFromU8a a).1 /\ 0 <= (compactFromU8a a).2.
Proof.
  intros Ha. pose proof (byteAt_range a 0 Ha) as Hb.
  assert (0 <= Z.shiftr (byteAt a 0) 2) as Hs by (apply Z.shiftr_nonneg; lia).
  unfold compactFromU8a.
  repeat match goal with |- context [if ?c then _ else _] => destruct c end;
    cbn [fst snd]; (split; [lia|]); try done;
    try (apply Z.shiftr_nonneg); by apply u8aToBn_nonneg, isBytes_subarray.
Qed.

End CompactRange.

Module TextMore.
Import Compact CompactFacts CompactRange Text TextFacts.

Section WithUtil.
Context {util : TextUtil}.

(** X1.  What [decodeText] reports as consumed stays inside the array.
    For a [Uint8Array] of bytes that is not a [Raw] and that is decoded,
    either the array is empty and nothing is consumed, or the consumed
    count covers the prefix, is at most the length of the array, the body
    is at most [MAX_LENGTH] long and the string is the text of the bytes
    between the prefix and the count; so a caller that advances by the
    count never leaves the array.  For a [Raw], which carries no prefix,
    nothing is refused and nothing is counted as consumed: the string is
    the text of all the bytes. *)
Theorem decodeText_consumed (a : U8a) (s : JSString) (n : Z) :
  isBytes a ->
  (decodeText (VU8a a) = inr (s, n) ->
   (a = [] /\ n = 0 /\ s = [])
   \/ (let offset := (compactFromU8a a).1 in
       1 <= offset <= n /\ n <= len a /\ n - offset <= MAX_LENGTH
       /\ s = u8aToString (subarray a offset n)))
  /\ decodeText (VRaw a) = inr (if len a =? 0 then [] else u8aToString a, 0).
Proof.
  intros Ha. split; [|cbn [decodeText]; by destruct (len a =? 0)].
  intros Hd. pose proof (compactFromU8a_range a Ha) as [Ho Hl].
  unfold decodeText, toNumber in Hd.
  destruct (Z.eqb_spec (len a) 0) as [E|E].
  - left. injection Hd as <- <-. destruct a; [done|].
    rewrite len_cons in E. pose proof (len_nonneg a). lia.
  - right. cbn zeta. destruct (compactFromU8a a) as [offset length].
    cbn [fst snd] in *.
    destruct (length <? 2 ^ 53); [|done].
    destruct (Z.leb_spec length MAX_LENGTH); cbn [negb] in Hd; [|done].
    destruct (Z.leb_spec (offset + length) (len a)); cbn [negb] in Hd; [|done].
    injection Hd as <- <-. repeat split; lia.
Qed.

(** X2.  Texts are read one after the other: what follows the encoding of
    a text of at most [MAX_LENGTH] bytes does not change what is decoded,
    the count consumed is the length of the encoding, and dropping that
    many bytes leaves exactly what followed. *)
Theorem decodeText_then_rest (t : Text) (rest : U8a) :
  len (stringToU8a (str t)) <= MAX_LENGTH ->
  decodeText (VU8a (toU8a t false ++ rest))
  = inr (u8aToString (stringToU8a (str t)), len (toU8a t false))
  /\ drop (Z.to_nat (len (toU8a t false))) (toU8a t false ++ rest) = rest.
Proof.
  unfold MAX_LENGTH. intros Hmax. split.
  - unfold toU8a, compactAddLength.
    set (body := stringToU8a (str t)) in *.
    pose proof (len_nonneg body) as Hpos.
    pose proof (len_nonneg rest) as Hrest.
    pose proof (compactToU8a_len_pos (len body)) as Hpre.
    unfold decodeText. rewrite <- app_assoc.
    rewrite compactFromU8a_compactToU8a
      by (split; [lia|]; apply Z.le_lt_trans with (128 * 1024); [lia|reflexivity]).
    assert (toNumber (len body) = inr (len body)) as ->.
    { unfold toNumber.
      assert (len body < 2 ^ 53)
        by (apply Z.le_lt_trans with (128 * 1024); [lia|reflexivity]).
      by cases_Z. }
    rewrite !len_app. unfold MAX_LENGTH. cases_Z.
    rewrite app_assoc.
    pose proof (subarray_app_r (compactToU8a (len body)) body) as Hsub.
    unfold subarray in *. rewrite <- app_assoc, drop_app_length' in *
      by (unfold len; by rewrite Nat2Z.id).
    rewrite take_app_le; [by rewrite Hsub|].
    unfold len. lia.
  - unfold len. by rewrite Nat2Z.id, drop_app_length.
Qed.

(** X3.  A text is encoded whatever its size, and read back only up to
    [MAX_LENGTH]: the encoding of a text whose bytes are more than that
    is refused by the constructor, with the length it declares. *)
Theorem toU8a_too_long (v : Text) :
  MAX_LENGTH < len (stringToU8a (str v)) ->
  len (stringToU8a (str v)) < 2 ^ 53 ->
  new (VU8a (toU8a v false))
  = inl (TextLengthExceeds (len (stringToU8a (str v)))).
Proof.
  intros Hmax Hsafe. unfold new, toU8a.
  by rewrite decodeText_too_long.
Qed.

(** X4.  [eq] compares what is shown.  It holds of a value exactly when
    the value is a string, a [String] object or a text, and [toString]
    gives the same for both; so it is reflexive, symmetric and transitive
    on texts, and false of everything else.  The text the constructor
    makes of a value is [eq] to that value when the value is a text, a
    [String] object or a string that is not hex; of a hex string it shows
    the decoded bytes, and is [eq] to it only when these are the hex
    string again; it is never [eq] to no value, bytes or another object
    it is made of. *)
Theorem eq_shown (t u w : Text) (v : Value) (made : Text) :
  (eq t v = true <-> shownOf v = Some (toString t))
  /\ eq t (VText t) = true
  /\ eq t (VText u) = eq u (VText t)
  /\ implb (eq t (VText u) && eq u (VText w)) (eq t (VText w)) = true
  /\ (new v = inr made ->
      (eq made v = true
       <-> match v with
           | VText _ | VStringObject _ => True
           | VString s => if isHex s then u8aToString (hexToU8a s) = s else True
           | _ => False
           end)).
Proof.
  split.
  { destruct v; cbn [eq shownOf]; rewrite ?bool_decide_eq_true;
      split; intros H; try done; congruence. }
  unfold eq at 1 2 3 4 5 6.
  split; [by apply bool_decide_eq_true|].
  split; [apply bool_decide_ext; split; congruence|].
  split; [repeat case_bool_decide; try done; congruence|].
  unfold new. intros Hnew.
  destruct (decodeText v) as [error|[s n]] eqn:Hd; [done|].
  injection Hnew as <-. unfold eq, toString. cbn [override str].
  destruct v as [|x|x|x|x|x|x]; cbn [decodeText] in Hd; try done.
  - injection Hd as <- _. by rewrite bool_decide_eq_true.
  - destruct (isHex x); injection Hd as <- _; by rewrite bool_decide_eq_true.
  - injection Hd as <- _. by rewrite bool_decide_eq_true.
Qed.

(** X5.  A text made of a text takes over what the other shows, not what
    it encodes: the copy shows the same and is [eq] to the original, it
    has no override and no initial length, and it encodes the shown
    string, so that the copy of a text with an override in effect has
    another encoding than the original whenever the override has another
    one than the string. *)
Theorem new_of_text (t : Text) (isBare : bool) :
  exists copy,
    new (VText t) = inr copy
    /\ str copy = toString t /\ override copy = None
    /\ initialU8aLength copy = 0
    /\ toString copy = toString t
    /\ eq copy (VText t) = true
    /\ toU8a copy true = stringToU8a (toString t)
    /\ (toU8a copy true = toU8a t true
        <-> stringToU8a (toString t) = stringToU8a (str t)).
Proof.
  exists (mkText (toString t) 0 None). repeat split; try done.
  unfold eq. by apply bool_decide_eq_true.
Qed.

(** X6.  The cost of the prefix: the encoded length of a text is the
    number of its bytes and one byte more up to 63 bytes, two up to 16383,
    four up to 2^30 - 1; the bare encoding is shorter by just that. *)
Theorem encodedLength_prefix (t : Text) :
  len (toU8a t true) <= 1073741823 ->
  let n := len (toU8a t true) in
  encodedLength t
  = n + (if n <=? 63 then 1 else if n <=? 16383 then 2 else 4)
  /\ 1 <= encodedLength t - n <= 4.
Proof.
  intros Hn. cbn zeta. unfold encodedLength. rewrite toU8a_prefixed, len_app.
  pose proof (len_nonneg (toU8a t true)) as Hpos.
  rewrite compactToU8a_len by lia. split; [lia|].
  repeat match goal with |- context [if ?c then _ else _] => destruct c end; lia.
Qed.

End WithUtil.
End TextMore.

(** ** Text: the hex form read back *)

Module HexFacts.
Import Utf8.

Lemma hexValue_hexDigit (d : Z) : 0 <= d < 16 -> hexValue (hexDigit d) = Some d.
Proof.
  intros Hd. unfold hexValue, hexDigit.
  destruct (Z.ltb_spec d 10).
  - destruct (Z.leb_spec 48 (48 + d)); [|lia].
    destruct (Z.leb_spec (48 + d) 57); [|lia]. cbn. f_equal. lia.
  - destruct (Z.leb_spec 48 (87 + d)); [|lia].
    destruct (Z.leb_spec (87 + d) 57); [lia|]. cbn [andb].
    destruct (Z.leb_spec 97 (87 + d)); [|lia].
    destruct (Z.leb_spec (87 + d) 102); [|lia]. cbn. f_equal. lia.
Qed.

(** The digits of bytes are read back as the bytes. *)
Lemma hexPairs_digits (a : U8a) :
  isBytes a ->
  hexPairs (flat_map (fun b => [hexDigit (b / 16); hexDigit (b mod 16)]) a)
  = Some a.
Proof.
  induction 1 as [|b a Hb _ IH]; [done|].
  cbn [flat_map app hexPairs].
  rewrite !hexValue_hexDigit, IH.
  - do 2 f_equal. pose proof (Z.div_mod b 16 ltac:(lia)). lia.
  - apply Z.mod_pos_bound. lia.
  - split; [apply Z.div_pos; lia|apply Z.div_lt_upper_bound; lia].
Qed.

Lemma isHex_u8aToHex (a : U8a) : isBytes a -> isHexString (u8aToHex a) = true.
Proof.
  intros Ha. unfold u8aToHex. change (js "0x") with [48; 120]. cbn [app isHexString].
  by rewrite hexPairs_digits.
Qed.

Lemma hexToU8a_u8aToHex (a : U8a) : isBytes a -> hexToBytes (u8aToHex a) = a.
Proof.
  intros Ha. unfold u8aToHex. change (js "0x") with [48; 120]. cbn [app hexToBytes].
  by rewrite hexPairs_digits.
Qed.

Lemma isBytes_ascii (s : JSString) : isAscii s -> isBytes s.
Proof. intros H. eapply Forall_impl; [exact H|]. intros c Hc. cbn in *. lia. Qed.

(** X7.  The hex form of a text is a value its constructor reads back:
    for a text whose encoding consists of bytes and is decoded to its
    string again, the text made of [toHex()] has the string of the
    original, with nothing counted as consumed, and is [eq] to it when no
    override is in effect. *)
Theorem new_of_toHex (t : Text.Text) :
  isBytes (stringToU8a (Text.str t)) ->
  u8aToString (stringToU8a (Text.str t)) = Text.str t ->
  Text.new (Text.VString (Text.toHex t)) = inr (Text.mkText (Text.str t) 0 None)
  /\ (Text.toString t = Text.str t ->
      Text.eq (Text.mkText (Text.str t) 0 None) (Text.VText t) = true).
Proof.
  intros Hb Hs. split.
  - unfold Text.new, Text.decodeText, Text.toHex, Text.toU8a.
    cbn [isHex hexToU8a util].
    rewrite isHex_u8aToHex, hexToU8a_u8aToHex by done. by rewrite Hs.
  - intros Hshown. unfold Text.eq. apply bool_decide_eq_true.
    by rewrite Hshown.
Qed.

End HexFacts.

(** ** Metadata: what a construction does to the arrays *)

Module MetadataMore.
Import Metadata MetadataFacts.

Section WithVersioned.
Context {util : TextUtil}.
Variables M Obj : Type.
Variable newVersioned : U8a -> result M.
Variable newVersionedOf : Value Obj -> result M.

Local Abbreviation decodeMetadata :=
  (decodeMetadata M Obj newVersioned newVersionedOf).

Local Abbreviation arrayOf := (arrayOf Obj).

Lemma decodeMetadata_array (em : U8a) (v : Value Obj) (a : U8a) :
  arrayOf v = Some a ->
  decodeMetadata em v = decodeU8a M newVersioned DEPTH (mkStore em a) TValue [].
Proof.
  destruct v as [|b|s|o]; cbn.
  - by intros [= <-].
  - by intros [= <-].
  - destruct (isHex s); [by intros [= <-]|done].
  - done.
Qed.

Lemma toU8a_array (em : U8a) (v : Value Obj) (a : U8a) :
  arrayOf v = Some a ->
  toU8a Obj em v = inr (if len a =? 0 then em else a).
Proof.
  destruct v as [|b|s|o]; cbn; unfold toU8aTarget; cbn [read valueArray].
  - by intros [= <-].
  - intros [= <-]. by destruct (len b =? 0).
  - destruct (isHex s); [|done]. intros [= <-].
    by destruct (len (hexToU8a s) =? 0).
  - done.
Qed.

(** X8.  A construction that succeeds at once touches nothing: when the
    bytes [toU8a] gives decode, [decodeMetadata] returns what they decode
    to after this one attempt, and the constant and the array of the
    caller are as they were. *)
Theorem decodeMetadata_success (em : U8a) (v : Value Obj) (a bytes : U8a) (m : M) :
  arrayOf v = Some a ->
  toU8a Obj em v = inr bytes ->
  newVersioned bytes = inr m ->
  decodeMetadata em v = mkOutcome (Some (inr m)) (mkStore em a) [bytes].
Proof.
  intros Ha Hb Hm. rewrite (toU8a_array _ _ _ Ha) in Hb. injection Hb as <-.
  rewrite (decodeMetadata_array _ _ _ Ha), decodeU8a_fuel by done.
  cbn zeta. unfold toU8aTarget. cbn [read valueArray].
  destruct (len a =? 0); cbn [read valueArray emptyMetadata] in *; by rewrite Hm.
Qed.

(** X9.  What a construction can change of the array it is given: the
    length stays, every byte but the one at index 4 stays, and the byte at
    index 4 stays or goes from 9 to 10, the latter only when the array
    failed to decode; for an array that is not empty the constant of the
    module stays as well. *)
Theorem decodeMetadata_frame (em a : U8a) :
  let after := valueArray (store (decodeMetadata em (VU8a a))) in
  length after = length a
  /\ (forall i, i <> VERSION_IDX -> after !! i = a !! i)
  /\ (after = a
      \/ (a !! VERSION_IDX = Some 9 /\ after = <[VERSION_IDX := 10]> a
          /\ exists error, newVersioned a = inl error))
  /\ (a <> [] -> emptyMetadata (store (decodeMetadata em (VU8a a))) = em).
Proof.
  cbn zeta. unfold Metadata.decodeMetadata. rewrite decodeU8a_fuel by done.
  cbn zeta. unfold toU8aTarget. cbn [read valueArray].
  destruct (Z.eqb_spec (len a) 0) as [E|E].
  - assert (a = []) as -> by (destruct a; [done|rewrite len_cons in E;
      pose proof (len_nonneg a); lia]).
    cbn [read emptyMetadata].
    destruct (newVersioned em); [case_bool_decide|]; cbn;
      (split; [done|]); (split; [done|]); (split; [by left|done]).
  - cbn [read valueArray].
    destruct (newVersioned a) as [error|m] eqn:Ea; [case_bool_decide as Hv|];
      cbn [store write valueArray emptyMetadata];
      try ((split; [done|]); (split; [done|]); (split; [by left|done])).
    split; [apply length_insert|].
    split; [intros i Hi; by apply list_lookup_insert_ne|].
    split; [|done]. right. eauto.
Qed.

(** X10.  The retry is bounded for every value and every decoder: a
    construction returns, after at most two attempts on bytes, and when
    there are two the first bytes have version 9 and the second are the
    first with version 10. *)
Theorem decodeMetadata_attempts (em : U8a) (v : Value Obj) :
  returned (decodeMetadata em v) <> None
  /\ (length (attempts (decodeMetadata em v)) <= 2)%nat
  /\ (forall first second rest,
        attempts (decodeMetadata em v) = first :: second :: rest ->
        first !! VERSION_IDX = Some 9
        /\ second = <[VERSION_IDX := 10]> first /\ rest = []).
Proof.
  destruct (arrayOf v) as [a|] eqn:Ha.
  - rewrite (decodeMetadata_array _ _ _ Ha), decodeU8a_fuel by done.
    cbn zeta.
    destruct (newVersioned _); [case_bool_decide as Hv|];
      cbn [returned attempts app length];
      (split; [done|]); (split; [lia|]); intros first second rest Heq;
      try discriminate Heq.
    by injection Heq as <- <- <-.
  - assert (attempts (decodeMetadata em v) = []
            /\ returned (decodeMetadata em v) <> None) as [-> Hr].
    { destruct v as [|b|s|o]; cbn in Ha; try done.
      unfold Metadata.decodeMetadata. destruct (isHex s); [done|].
      by destruct (len s =? 0). }
    split; [done|]. split; [cbn; lia|]. intros ? ? ? [=].
Qed.

(** What [toU8a] gives and refuses: an array that is not empty is
    given back itself, a string that is not hex and an object are refused,
    and, the constant not being empty, bytes that are given are never
    empty. *)
Lemma toU8a_cases (em : U8a) (v : Value Obj) (a bytes : U8a) (s : JSString) (o : Obj) :
  (a <> [] -> toU8a Obj em (VU8a a) = inr a)
  /\ (isHex s = false -> toU8a Obj em (VString s) = inl InvalidMetadataType)
  /\ toU8a Obj em (VObject o) = inl InvalidMetadataType
  /\ (em <> [] -> toU8a Obj em v = inr bytes -> bytes <> []).
Proof.
  assert (forall b : U8a, b <> [] -> (len b =? 0) = false) as Hne.
  { intros b Hb. apply Z.eqb_neq. destruct b; [done|]. rewrite len_cons.
    pose proof (len_nonneg b). lia. }
  split; [|split; [|split]].
  - intros Ha. cbn. unfold toU8aTarget. cbn [read valueArray]. by rewrite Hne.
  - intros Hs. cbn. by rewrite Hs.
  - done.
  - intros Hem Hb. destruct (arrayOf v) as [b|] eqn:Hv.
    + rewrite (toU8a_array _ _ _ Hv) in Hb. injection Hb as <-.
      destruct (Z.eqb_spec (len b) 0) as [E|E]; [done|].
      intros ->. by apply E.
    + destruct v as [|b|s'|o']; cbn in Hv, Hb; try done.
      by destruct (isHex s').
Qed.

(** X11.  The constant is shared and the retry writes into the array it
    is given: when the constant has version 9 and does not decode, a
    construction from an empty value leaves the constant with version
    10, returns what those bytes decode to, and the bytes [toU8a] gives
    for the next empty value are those of version 10. *)
Theorem emptyMetadata_rewritten (em : U8a) (v v' : Value Obj) (error : Error) :
  isEmptyValue Obj v = true ->
  isEmptyValue Obj v' = true ->
  em !! VERSION_IDX = Some 9 ->
  newVersioned em = inl error ->
  let outcome := decodeMetadata em v in
  emptyMetadata (store outcome) = <[VERSION_IDX := 10]> em
  /\ returned outcome = Some (newVersioned (<[VERSION_IDX := 10]> em))
  /\ attempts outcome = [em; <[VERSION_IDX := 10]> em]
  /\ toU8a Obj (emptyMetadata (store outcome)) v'
     = inr (<[VERSION_IDX := 10]> em).
Proof.
  intros Hv Hv' H9 Herr. cbn zeta.
  assert (exists a, arrayOf v = Some a /\ len a = 0) as (a & Ha & Hlen).
  { destruct v as [|b|s|o]; cbn in Hv |- *.
    - by exists [].
    - exists b. by apply Z.eqb_eq in Hv.
    - apply andb_true_iff in Hv as [-> Hv%Z.eqb_eq]. by eexists.
    - done. }
  rewrite (decodeMetadata_array _ _ _ Ha), decodeU8a_fuel by done.
  cbn zeta. unfold toU8aTarget. cbn [read valueArray]. rewrite Hlen.
  cbn [Z.eqb read emptyMetadata]. rewrite Herr.
  rewrite bool_decide_eq_true_2 by done.
  cbn [store write emptyMetadata returned attempts app].
  repeat split. by apply toU8a_empty.
Qed.

End WithVersioned.
End MetadataMore.

(** ** Prefixed bytes with more after them, and cut short *)

Module PrefixedFacts.
Import Compact CompactFacts CompactRange.

(** Reading a prefixed array that something follows: the prefix and the
    array are found as they were written. *)
Lemma read_prefixed (data rest : U8a) :
  len data < 2 ^ 53 ->
  let width := len (compactToU8a (len data)) in
  compactFromU8a (compactAddLength data ++ rest) = (width, len data)
  /\ subarray (compactAddLength data ++ rest) width (width + len data) = data
  /\ len (compactAddLength data ++ rest) = width + len data + len rest.
Proof.
  intros Hsafe. cbn zeta. pose proof (len_nonneg data) as Hpos.
  unfold compactAddLength. rewrite <- app_assoc. repeat split.
  - apply compactFromU8a_compactToU8a. split; [lia|].
    apply Z.lt_trans with (2 ^ 53); [lia|reflexivity].
  - pose proof (subarray_app_r (compactToU8a (len data)) data) as Hsub.
    unfold subarray in *.
    rewrite drop_app_length' in * by (unfold len; by rewrite Nat2Z.id).
    rewrite take_app_le; [done|]. unfold len. lia.
  - rewrite !len_app. lia.
Qed.

Lemma byteAt_take (a : U8a) (k : nat) :
  (0 < k)%nat -> byteAt (take k a) 0 = byteAt a 0.
Proof. intros Hk. destruct k; [lia|]. by destruct a. Qed.

(** The width of a prefix is read off its first byte. *)
Lemma compactFromU8a_width_take (a : U8a) (k : nat) :
  (0 < k)%nat -> (compactFromU8a (take k a)).1 = (compactFromU8a a).1.
Proof.
  intros Hk. unfold compactFromU8a. rewrite (byteAt_take a k Hk).
  by repeat match goal with |- context [if ?c then _ else _] => destruct c end.
Qed.

Lemma isBytes_compactToU8a (n : Z) : 0 <= n -> isBytes (compactToU8a n).
Proof.
  intros Hn. unfold compactToU8a.
  destruct (Z.leb_spec n 63);
    [|destruct (Z.leb_spec n 16383); [|destruct (Z.leb_spec n 1073741823)]];
    try apply bnToU8a_bytes.
  - repeat constructor; rewrite Z.shiftl_mul_pow2 by lia; lia.
  - constructor; [apply Z.mod_pos_bound; lia|apply bnToU8a_bytes].
Qed.

(** What is read of a prefixed array that is cut short: a width and a
    length that together go beyond what is left. *)
Lemma read_truncated (data : U8a) (k : nat) :
  len data < 2 ^ 53 ->
  (0 < k < length (compactAddLength data))%nat ->
  let read := compactFromU8a (take k (compactAddLength data)) in
  0 <= read.2 /\ Z.of_nat k < read.1 + read.2.
Proof.
  intros Hsafe Hk. cbn zeta. pose proof (len_nonneg data) as Hpos.
  destruct (read_prefixed data [] Hsafe) as (Hread & _ & _).
  rewrite app_nil_r in Hread. unfold compactAddLength in *.
  set (pre := compactToU8a (len data)) in *.
  rewrite length_app in Hk.
  destruct (Nat.lt_ge_cases k (length pre)) as [Hlt|Hge].
  - rewrite take_app_le by lia.
    assert (isBytes (take k pre)) as Hb
      by (apply isBytes_take, isBytes_compactToU8a; lia).
    pose proof (compactFromU8a_range _ Hb) as [_ Hl].
    split; [done|].
    rewrite compactFromU8a_width_take by lia.
    assert ((compactFromU8a pre).1 = len pre) as ->.
    { pose proof (compactFromU8a_compactToU8a (len data) []) as H.
      rewrite app_nil_r in H. fold pre in H. rewrite H; [done|].
      split; [lia|]. apply Z.lt_trans with (2 ^ 53); [lia|reflexivity]. }
    subst pre. unfold len in *. lia.
  - rewrite take_app_ge by lia. subst pre.
    rewrite compactFromU8a_compactToU8a
      by (split; [lia|]; apply Z.lt_trans with (2 ^ 53); [lia|reflexivity]).
    cbn [fst snd]. unfold len in *. lia.
Qed.

End PrefixedFacts.

(** ** Extrinsic: the envelope read back, and the kept hash *)

Module ExtrinsicMore.
Import Compact CompactFacts PrefixedFacts Extrinsic ExtrinsicFacts.

(** The version byte of a format of seven bits splits into the format and
    the signed bit. *)
Lemma version_byte_splits (t : Z) (signed : bool) :
  0 <= t < 128 ->
  let v := Z.lor t (if signed then BIT_SIGNED else BIT_UNSIGNED) in
  Z.land v UNMASK_VERSION = t /\ (Z.land v BIT_SIGNED =? BIT_SIGNED) = signed.
Proof.
  intros Ht. cbn zeta. unfold BIT_SIGNED, BIT_UNSIGNED, UNMASK_VERSION.
  assert (Z.land t 0x7f = t) as H7.
  { change 0x7f with (Z.ones 7). rewrite Z.land_ones by lia.
    apply Z.mod_small. lia. }
  assert (Z.land t 0x80 = 0) as H8.
  { rewrite <- H7, <- Z.land_assoc. change (Z.land 0x7f 0x80) with 0.
    apply Z.land_0_r. }
  destruct signed.
  - rewrite !Z.land_lor_distr_l, H7, H8.
    change (Z.land 0x80 0x7f) with 0. change (Z.land 0x80 0x80) with 0x80.
    by rewrite Z.lor_0_r.
  - by rewrite Z.lor_0_r, H7, H8.
Qed.

Section WithRegistry.
Variable Raw : Type.
Variable rawVersion : Raw -> Z.
Variable rawIsSigned : Raw -> bool.
Variable rawToU8a : Raw -> U8a.
Variable Payload : Type.
Variable createType : TypeName -> Payload + U8a -> bool -> option Z -> result Raw.
Variable registryHash : U8a -> U8a.
Variables SignatureArgs SignArgs FakeArgs : Type.
Variable rawAddSignature : Raw -> SignatureArgs -> Raw * Completion.
Variable rawSign : Raw -> SignArgs -> Raw * Completion.
Variable rawSignFake : Raw -> FakeArgs -> Raw * Completion.

Local Abbreviation version := (version Raw rawVersion rawIsSigned).
Local Abbreviation type := (type Raw rawVersion).
Local Abbreviation isSigned := (isSigned Raw rawIsSigned).
Local Abbreviation toU8a := (toU8a Raw rawVersion rawIsSigned rawToU8a).
Local Abbreviation encodedLength := (encodedLength Raw rawVersion rawIsSigned rawToU8a).
Local Abbreviation _newFromValue := (_newFromValue Raw Payload createType).
Local Abbreviation _decodeU8a := (_decodeU8a Raw Payload createType).
Local Abbreviation hash := (hash Raw rawVersion rawIsSigned rawToU8a registryHash).
Local Abbreviation superHash := (superHash Raw rawVersion rawIsSigned rawToU8a registryHash).
Local Abbreviation perform :=
  (perform Raw rawVersion rawIsSigned rawToU8a registryHash
     SignatureArgs SignArgs FakeArgs rawAddSignature rawSign rawSignFake).
Local Abbreviation World := (World Raw).
Local Abbreviation WorldCall := (WorldCall SignatureArgs SignArgs FakeArgs).
Local Abbreviation view := (view Raw).
Local Abbreviation leave := (leave Raw).
Local Abbreviation act :=
  (act Raw rawVersion rawIsSigned rawToU8a registryHash
     SignatureArgs SignArgs FakeArgs rawAddSignature rawSign rawSignFake).
Local Abbreviation hashOf := (hashOf Raw rawVersion rawIsSigned rawToU8a registryHash).
Local Abbreviation encodingOf := (encodingOf Raw rawVersion rawIsSigned rawToU8a).
Local Abbreviation apart := (apart Raw SignatureArgs SignArgs FakeArgs).
Local Abbreviation leads :=
  (leads Raw rawVersion rawIsSigned rawToU8a registryHash
     SignatureArgs SignArgs FakeArgs rawAddSignature rawSign rawSignFake).
Local Abbreviation current :=
  (current Raw rawVersion rawIsSigned rawToU8a registryHash).

Lemma u8_version (e : GenericExtrinsic Raw) :
  0 <= type e < 128 -> u8 (version e) = version e.
Proof.
  intros Ht. unfold u8. apply Z.mod_small.
  apply (lor_signed_range (type e) (isSigned e) Ht).
Qed.

(** X12.  The version byte keeps both of its parts: for a format of seven
    bits the byte is a byte, its low seven bits are the format and its
    top bit tells whether the extrinsic is signed. *)
Theorem version_splits (e : GenericExtrinsic Raw) :
  0 <= type e < 128 ->
  0 <= version e < 256
  /\ Z.land (version e) UNMASK_VERSION = type e
  /\ (Z.land (version e) BIT_SIGNED =? BIT_SIGNED) = isSigned e.
Proof.
  intros Ht. split; [apply (lor_signed_range (type e) (isSigned e) Ht)|].
  apply (version_byte_splits (type e) (isSigned e) Ht).
Qed.

(** Decoding an envelope that something follows. *)
Lemma _decodeU8a_rest (v : Z) (inner rest : U8a) (dv : Z) :
  len inner + 1 < 2 ^ 53 ->
  _decodeU8a (compactAddLength (v :: inner) ++ rest) dv
  = _newFromValue (inr inner) (Some v).
Proof.
  intros Hsafe. rewrite Z.add_comm, <- (len_cons v inner) in Hsafe.
  pose proof (len_nonneg (v :: inner)) as Hpos.
  pose proof (len_nonneg rest) as Hrest.
  pose proof (compactToU8a_len_pos (len (v :: inner))) as Hpre.
  destruct (read_prefixed (v :: inner) rest Hsafe) as (Hread & Hsub & Hlen).
  unfold Extrinsic._decodeU8a. rewrite Hread, Hlen.
  unfold toNumber. cases_Z. rewrite Hsub, subarray_tail. reflexivity.
Qed.

(** X13.  Encoding and decoding agree on the envelope: what [toU8a()]
    gives is decoded by asking the registry for the class of the format
    of the extrinsic, with its signed flag, its version byte and the bytes
    of its inner value, whatever the default version is. *)
Theorem decode_of_encode (e : GenericExtrinsic Raw) (dv : Z) :
  0 <= type e < 128 ->
  len (rawToU8a (_raw Raw e)) + 1 < 2 ^ 53 ->
  _decodeU8a (toU8a e false) dv
  = createType (typeOf (Some (type e))) (inr (rawToU8a (_raw Raw e)))
      (isSigned e) (Some (version e)).
Proof.
  intros Ht Hsafe. unfold Extrinsic.toU8a. cbn [app].
  rewrite <- (app_nil_r (compactAddLength _)), _decodeU8a_rest by done.
  unfold Extrinsic._newFromValue. rewrite (u8_version e Ht).
  destruct (version_byte_splits (type e) (isSigned e) Ht) as [Hf Hs].
  pose proof (proj1 (version_byte_splits (type e) false Ht)) as Hu.
  cbn zeta in Hu. unfold BIT_UNSIGNED in Hu. rewrite Z.lor_0_r in Hu.
  unfold band. fold (version e) in Hf, Hs. rewrite Hs.
  by rewrite !typeOf_spec, Hf, Hu.
Qed.

(** X14.  Bytes after an envelope are not looked at: the decoding of an
    encoded extrinsic with anything appended is the decoding of the
    encoded extrinsic. *)
Theorem decode_ignores_rest (e : GenericExtrinsic Raw) (rest : U8a) (dv : Z) :
  len (rawToU8a (_raw Raw e)) + 1 < 2 ^ 53 ->
  _decodeU8a (toU8a e false ++ rest) dv = _decodeU8a (toU8a e false) dv.
Proof.
  intros Hsafe. unfold Extrinsic.toU8a. cbn [app].
  rewrite _decodeU8a_rest by done.
  by rewrite <- (app_nil_r (compactAddLength _)), _decodeU8a_rest.
Qed.

(** X15.  An envelope that is cut short is refused: of an encoded
    extrinsic, no beginning that is not empty and not the whole decodes. *)
Theorem decode_refuses_truncated (e : GenericExtrinsic Raw) (k : nat) (dv : Z) :
  len (rawToU8a (_raw Raw e)) + 1 < 2 ^ 53 ->
  (0 < k < List.length (toU8a e false))%nat ->
  exists error, _decodeU8a (take k (toU8a e false)) dv = inl error.
Proof.
  intros Hsafe Hk. unfold Extrinsic.toU8a in *. cbn [app] in *.
  set (data := u8 (version e) :: rawToU8a (_raw Raw e)) in *.
  assert (len data < 2 ^ 53) as Hsafe'
    by (unfold data; rewrite len_cons; lia).
  destruct (read_truncated data k Hsafe' Hk) as [Hl Ht].
  assert (len (take k (compactAddLength data)) = Z.of_nat k) as Hlen
    by (unfold len; rewrite length_take; lia).
  unfold Extrinsic._decodeU8a. rewrite Hlen.
  destruct (compactFromU8a (take k (compactAddLength data))) as [offset length].
  cbn [fst snd] in *. unfold toNumber.
  destruct (Z.eqb_spec (Z.of_nat k) 0); [lia|].
  destruct (length <? 2 ^ 53); [|by eauto].
  destruct (Z.leb_spec (offset + length) (Z.of_nat k)); [lia|].
  cbn [negb]. by eauto.
Qed.

Local Abbreviation hashKept :=
  (hashKept Raw rawVersion rawIsSigned rawToU8a registryHash).

Lemma hashKept_hash (e : GenericExtrinsic Raw) :
  hashKept e -> hashKept (hash e).2.
Proof.
  unfold Extrinsic.hash. destruct (hashCache Raw e) as [h|] eqn:E; [done|].
  intros _. unfold Extrinsic.hashKept. reflexivity.
Qed.

Lemma hashKept_perform (e e' : GenericExtrinsic Raw) (c : Call SignatureArgs SignArgs FakeArgs) :
  hashKept e -> perform e c = (e', Returned) -> hashKept e'.
Proof.
  intros Hk Hp. destruct c as [|args|args|args]; cbn in Hp.
  - injection Hp as <-. by apply hashKept_hash.
  - unfold addSignature, signing in Hp.
    destruct (rawAddSignature _ _) as [raw [|error]]; [|done].
    by injection Hp as <-.
  - unfold sign, signing in Hp.
    destruct (rawSign _ _) as [raw [|error]]; [|done].
    by injection Hp as <-.
  - unfold signFake, signing in Hp.
    destruct (rawSignFake _ _) as [raw [|error]]; [|done].
    by injection Hp as <-.
Qed.

(** A method leaves the inner value of the extrinsic it is called on where
    it was; only a signing method changes it. *)
Lemma perform_hash_raw (e e' : GenericExtrinsic Raw)
    (c : Call SignatureArgs SignArgs FakeArgs) (completion : Completion) :
  isSigning SignatureArgs SignArgs FakeArgs c = false ->
  perform e c = (e', completion) -> _raw Raw e' = _raw Raw e.
Proof.
  destruct c; [|done..]. intros _ [= <- _]. unfold Extrinsic.hash.
  by destruct (hashCache Raw e).
Qed.

Lemma view_leave (w : World) (i : nat) (e e' : GenericExtrinsic Raw) :
  view w i = Some e -> view (leave w i e') i = Some e'.
Proof.
  unfold Extrinsic.view, Extrinsic.leave.
  destruct (holders Raw w !! i) as [h|] eqn:Hh; [|done].
  destruct (inners Raw w !! place h) as [raw|] eqn:Hr; [|done]. intros _.
  cbn [holders inners].
  rewrite list_lookup_insert_eq by (by eapply lookup_lt_Some). cbn [place kept].
  rewrite list_lookup_insert_eq by (by eapply lookup_lt_Some). by destruct e'.
Qed.

(** A method of one extrinsic leaves another as it is when the two hold
    different inner values, or when the method leaves the inner value as
    it is. *)
Lemma view_leave_other (w : World) (i j : nat) (e e' : GenericExtrinsic Raw) :
  j <> i ->
  view w j = Some e ->
  place <$> holders Raw w !! j <> place <$> holders Raw w !! i
  \/ _raw Raw e' = _raw Raw e ->
  view (leave w j e') i = view w i.
Proof.
  intros Hne. unfold Extrinsic.view, Extrinsic.leave.
  destruct (holders Raw w !! j) as [hj|] eqn:Hj; [|done].
  destruct (inners Raw w !! place hj) as [raw|] eqn:Hr; [|done].
  intros [= <-] Hcase. cbn [holders inners _raw] in *.
  rewrite list_lookup_insert_ne by done.
  destruct (holders Raw w !! i) as [hi|] eqn:Hi; [|done].
  destruct Hcase as [Hplace| ->].
  - rewrite list_lookup_insert_ne; [done|]. cbn in Hplace. congruence.
  - by rewrite list_insert_id.
Qed.

(** The invariant: a call that returns leaves the kept hash of an
    extrinsic in order, unless it signs through another holder of its
    inner value. *)
Lemma current_act (w w' : World) (i : nat) (c : WorldCall) :
  current w i -> apart w i c -> act w c = Some (w', Returned) -> current w' i.
Proof.
  intros Hcur Hapart Hact. unfold Extrinsic.current in *.
  destruct c as [j call|j]; cbn [Extrinsic.act Extrinsic.apart] in *.
  - destruct (Extrinsic.view Raw w j) as [e|] eqn:Hv; [|done].
    destruct (perform e call) as [e' completion] eqn:Hp.
    injection Hact as <- ->.
    destruct (decide (j = i)) as [->|Hne].
    + rewrite (view_leave w i e e' Hv). rewrite Hv in Hcur.
      by eapply hashKept_perform.
    + rewrite (view_leave_other w i j e e' Hne Hv); [done|].
      destruct (isSigning SignatureArgs SignArgs FakeArgs call) eqn:Hs.
      * left. by apply Hapart.
      * right. by eapply perform_hash_raw.
  - destruct (holders Raw w !! j) as [hj|] eqn:Hj; [|done].
    injection Hact as <-. unfold Extrinsic.view in *. cbn [holders inners].
    destruct (holders Raw w !! i) as [hi|] eqn:Hi.
    + rewrite lookup_app_l by (by eapply lookup_lt_Some). by rewrite Hi.
    + apply lookup_ge_None in Hi.
      rewrite lookup_app_r by done.
      destruct (i - List.length (holders Raw w))%nat as [|k]; [|done].
      cbn [lookup list_lookup place kept].
      by destruct (inners Raw w !! place hj).
Qed.

Lemma current_leads (w w' : World) (i : nat) :
  current w i -> leads i w w' -> current w' i.
Proof.
  intros Hcur Hl. induction Hl as [|w w' w'' c _ IH Hapart Hact]; [done|].
  eapply current_act; [by apply IH|exact Hapart|exact Hact].
Qed.

(** X16.  The kept hash of an extrinsic stays in order as long as no
    signing method is called on another extrinsic that holds its inner
    value.  On an extrinsic that starts without a kept hash, after any
    calls that returned, of [hash], [addSignature], [sign] and [signFake]
    on it, of [hash] on any extrinsic, of the signing methods on
    extrinsics with other inner values, and constructions of extrinsics
    from extrinsics, [hash] is the registry's hash of the encoding it has
    then; asking again gives the same and leaves the encoding. *)
Theorem hash_current (i : nat) (w0 w : World) (e : GenericExtrinsic Raw) :
  (forall h, holders Raw w0 !! i = Some h -> kept h = None) ->
  leads i w0 w ->
  view w i = Some e ->
  hashOf w i = Some (registryHash (toU8a e false))
  /\ encodingOf w i = Some (toU8a e false)
  /\ (hash (hash e).2).1 = (hash e).1
  /\ toU8a (hash e).2 false = toU8a e false.
Proof.
  intros Hnone Hl Hv.
  assert (current w0 i) as Hcur0.
  { unfold Extrinsic.current, Extrinsic.view.
    destruct (holders Raw w0 !! i) as [h|] eqn:Hh; [|done].
    destruct (inners Raw w0 !! place h); [|done].
    unfold Extrinsic.hashKept. cbn [hashCache]. by rewrite (Hnone h). }
  pose proof (current_leads w0 w i Hcur0 Hl) as Hcur.
  unfold Extrinsic.current, Extrinsic.hashOf, Extrinsic.encodingOf in *.
  rewrite Hv in *.
  unfold Extrinsic.hash, Extrinsic.hashKept in *.
  destruct (hashCache Raw e) as [h|] eqn:E; cbn [fst snd].
  - rewrite E. by subst h.
  - done.
Qed.

(** X26.  A method drops the kept hash of the extrinsic it is called on
    only: when two extrinsics hold the same inner value and one has a
    kept hash, a method of the other that returns, a signing method among
    them, leaves that hash in place, so that [hash] of the first still
    gives it, while its encoding is that of the inner value as the method
    left it. *)
Theorem hash_kept_by_other (w w' : World) (i j : nat) (hi hj : Holder)
    (h : U8a) (c : Call SignatureArgs SignArgs FakeArgs)
    (e' : GenericExtrinsic Raw) :
  holders Raw w !! i = Some hi ->
  holders Raw w !! j = Some hj ->
  j <> i ->
  place hj = place hi ->
  kept hi = Some h ->
  act w (OnExtrinsic SignatureArgs SignArgs FakeArgs j c) = Some (w', Returned) ->
  view w' j = Some e' ->
  hashOf w' i = Some h
  /\ encodingOf w' i = Some (toU8a e' false).
Proof.
  intros Hi Hj Hne Hplace Hkept Hact Hv'. cbn [Extrinsic.act] in Hact.
  destruct (Extrinsic.view Raw w j) as [e|] eqn:Hv; [|done].
  destruct (perform e c) as [e'' completion] eqn:Hp. injection Hact as <- _.
  rewrite (view_leave w j e e'' Hv) in Hv'. injection Hv' as ->.
  assert (view (leave w j e') i = Some (mkExtrinsic Raw (_raw Raw e') (Some h))) as Hvi.
  { unfold Extrinsic.view, Extrinsic.leave in *. rewrite Hj in *.
    destruct (inners Raw w !! place hj) as [raw|] eqn:Hr; [|done].
    cbn [holders inners]. rewrite list_lookup_insert_ne, Hi by done.
    rewrite <- Hplace, list_lookup_insert_eq by (by eapply lookup_lt_Some).
    by rewrite Hkept. }
  unfold Extrinsic.hashOf, Extrinsic.encodingOf. rewrite Hvi.
  unfold Extrinsic.hash. cbn [hashCache fst]. split; [done|].
  unfold Extrinsic.toU8a, Extrinsic.version, Extrinsic.type, Extrinsic.isSigned.
  by cbn [_raw].
Qed.

End WithRegistry.
End ExtrinsicMore.

(** ** Text: an encoding that is cut short *)

Module TextTruncated.
Import Compact CompactFacts PrefixedFacts Text.

Section WithUtil.
Context {util : TextUtil}.

(** X17.  An encoding that is cut short is refused: of the encoding of a
    text, no beginning that is not empty and not the whole is decoded. *)
Theorem decodeText_refuses_truncated (t : Text) (k : nat) :
  len (stringToU8a (str t)) < 2 ^ 53 ->
  (0 < k < length (toU8a t false))%nat ->
  exists error, decodeText (VU8a (take k (toU8a t false))) = inl error.
Proof.
  intros Hsafe Hk. unfold toU8a in *.
  set (body := stringToU8a (str t)) in *.
  destruct (read_truncated body k Hsafe Hk) as [Hl Ht].
  assert (len (take k (compactAddLength body)) = Z.of_nat k) as Hlen
    by (unfold len; rewrite length_take; lia).
  unfold decodeText. rewrite Hlen.
  destruct (compactFromU8a (take k (compactAddLength body))) as [offset length].
  cbn [fst snd] in *. unfold toNumber.
  destruct (Z.eqb_spec (Z.of_nat k) 0); [lia|].
  destruct (length <? 2 ^ 53); [|by eauto].
  destruct (length <=? MAX_LENGTH); cbn [negb]; [|by eauto].
  destruct (Z.leb_spec (offset + length) (Z.of_nat k)); [lia|].
  cbn [negb]. by eauto.
Qed.

End WithUtil.
End TextTruncated.

(** ** Derives: which sections there are, and from where *)

Module DeriveMore.
Import Derive DeriveFacts.

Lemma existsb_elem {A} (f : A -> bool) (a : list A) :
  existsb f a = true <-> exists x, x ∈ a /\ f x = true.
Proof.
  rewrite existsb_exists. split; intros (x & Hx & Hf); exists x;
    (split; [by apply list_elem_of_In|done]).
Qed.

Lemma isIncluded_available (api : Api) (s : string) :
  isIncluded api s = true <-> available api s.
Proof.
  unfold isIncluded, available. destruct (checks !! s) as [c|] eqn:Ec.
  - rewrite orb_true_iff, andb_true_iff, !existsb_elem. split.
    + intros [(q & Hq & Hk)|[Hd (q & Hq & Hk)]]; right; exists c, q.
      * apply includes_elem in Hk. eauto.
      * apply existsb_elem in Hk as (k & Hk & Hin).
        apply includes_elem in Hin. split; [done|]. split; [done|]. right. eauto.
    + intros [|(c' & q & [= <-] & Hq & [Hk|[Hd (k & Hk & Hin)]])]; [done| |].
      * left. exists q. split; [done|]. by apply includes_elem.
      * right. split; [done|]. exists q. split; [done|].
        apply existsb_elem. exists k. split; [done|]. by apply includes_elem.
  - split; [by left|done].
Qed.

Section WithCreators.
Variables Creator Fn : Type.
Variable call : Creator -> string -> Api -> Fn.

Local Abbreviation injectFunctions := (injectFunctions Creator Fn call).
Local Abbreviation section := (section Creator Fn call).

(** The section of a name in the result. *)
Lemma injectFunctions_get (instanceId : string) (api : Api)
    (derives : DeriveCustom Creator) (s : string) :
  Obj.get (injectFunctions instanceId api derives) s
  = if isIncluded api s then section instanceId api <$> Obj.get derives s
    else None.
Proof.
  unfold Derive.injectFunctions.
  induction derives as [|[k methods] derives IH]; cbn [List.filter map Obj.get fst snd].
  - by destruct (isIncluded api s).
  - destruct (isIncluded api k) eqn:Ek; cbn [map Obj.get fst snd].
    + destruct (String.eqb_spec k s) as [->|Hne]; [by rewrite Ek|exact IH].
    + rewrite IH. destruct (String.eqb_spec k s) as [->|Hne]; [by rewrite Ek|done].
Qed.

(** X18.  The sections [injectFunctions] gives: a name is one of them
    exactly when it is a name of the derives and either [checks] has no
    entry for it or one of the instance names of its entry is a key of
    [api.query], itself or, for an entry with detection, through one of
    the module instances the registry knows for it; the section then has
    the methods of the derive, each called with the instance id and the
    api.  The derives have no name of [Object.prototype]. *)
Theorem injectFunctions_spec (instanceId : string) (api : Api)
    (derives : DeriveCustom Creator) (s : string) :
  ownNames derives ->
  (s ∈ map fst (injectFunctions instanceId api derives)
   <-> s ∈ map fst derives /\ available api s)
  /\ (forall methods,
        Obj.get derives s = Some methods -> available api s ->
        Obj.get (injectFunctions instanceId api derives) s
        = Some (map (fun m => (m.1, call m.2 instanceId api)) methods))
  /\ (~ available api s ->
      Obj.get (injectFunctions instanceId api derives) s = None).
Proof.
  intros _. split; [|split].
  - rewrite injectFunctions_elem. by rewrite isIncluded_available.
  - intros methods Hget Hav. apply isIncluded_available in Hav.
    by rewrite injectFunctions_get, Hav, Hget.
  - intros Hav. rewrite injectFunctions_get.
    destruct (isIncluded api s) eqn:E; [|done].
    by apply isIncluded_available in E.
Qed.

(** X19.  More pallets never cost a section: when every key of
    [api.query] of one api is a key of another, with the same spec name
    and the same registry, every section the first api gets the second
    gets too.  The derives have no name of [Object.prototype]. *)
Theorem injectFunctions_monotone (instanceId : string) (api api' : Api)
    (derives : DeriveCustom Creator) (s : string) :
  ownNames derives ->
  queryKeys api ⊆ queryKeys api' ->
  specName api' = specName api ->
  (forall name module, registryModuleInstances api' name module
                       = registryModuleInstances api name module) ->
  s ∈ map fst (injectFunctions instanceId api derives) ->
  s ∈ map fst (injectFunctions instanceId api' derives).
Proof.
  intros _ Hsub Hname Hreg. rewrite !injectFunctions_elem, !isIncluded_available.
  intros [Hs Hav]. split; [done|].
  destruct Hav as [Hnone|(c & q & Hc & Hq & Hk)]; [by left|].
  right. exists c, q. split; [done|]. split; [done|].
  destruct Hk as [Hk|[Hd (k & Hk & Hin)]]; [left; by apply Hsub|].
  right. split; [done|]. exists k. split; [|by apply Hsub].
  unfold getModuleInstances in *. by rewrite Hname, Hreg.
Qed.

End WithCreators.
End DeriveMore.

Module AvailableFacts.
Import AvailableDerives ObjFacts.

Lemma get_fold_set {V} (entries : Obj.t V) (o : Obj.t V) (s : string) :
  Obj.get (fold_left (fun o entry => Obj.set o entry.1 entry.2) entries o) s
  = match Obj.get (reverse entries) s with
    | Some v => Some v
    | None => Obj.get o s
    end.
Proof.
  revert o. induction entries as [|[k v] entries IH]; intros o; [done|].
  cbn [fold_left fst snd]. rewrite IH, reverse_cons.
  assert (forall (l : Obj.t V), Obj.get (l ++ [(k, v)]) s
            = match Obj.get l s with
              | Some x => Some x
              | None => if String.eqb k s then Some v else None
              end) as Happ.
  { induction l as [|[k' v'] l IHl]; cbn; [done|].
    by destruct (String.eqb k' s). }
  rewrite Happ. destruct (Obj.get (reverse entries) s); [done|].
  destruct (String.eqb_spec k s) as [->|Hne].
  - apply get_set_eq.
  - by apply get_set_ne.
Qed.

(** Looking a name up in a list of entries read backwards finds the last
    entry of the name. *)
Lemma get_reverse_unique {V} (entries : Obj.t V) (s : string) :
  NoDup (Obj.keys entries) ->
  Obj.get (reverse entries) s = Obj.get entries s.
Proof.
  induction entries as [|[k v] entries IH]; [done|].
  cbn [Obj.keys map fst]. intros [Hk Hnd]%NoDup_cons.
  rewrite reverse_cons. cbn [Obj.get].
  assert (forall (l : Obj.t V), Obj.get (l ++ [(k, v)]) s
            = match Obj.get l s with
              | Some x => Some x
              | None => if String.eqb k s then Some v else None
              end) as Happ.
  { induction l as [|[k' v'] l IHl]; cbn; [done|].
    by destruct (String.eqb k' s). }
  rewrite Happ, (IH Hnd). destruct (String.eqb_spec k s) as [->|Hne]; [|by destruct (Obj.get entries s)].
  destruct (Obj.get entries s) as [x|] eqn:E; [|done].
  exfalso. apply Hk. clear -E. induction entries as [|[k' v'] entries IHe]; [done|].
  cbn in *. destruct (String.eqb_spec k' s) as [->|Hne]; [by left|].
  right. by apply IHe.
Qed.

Lemma get_app {V} (a b : Obj.t V) (s : string) :
  Obj.get (a ++ b) s
  = match Obj.get a s with Some v => Some v | None => Obj.get b s end.
Proof.
  induction a as [|[k v] a IH]; cbn; [done|]. by destruct (String.eqb k s).
Qed.

(** In a spread of two objects, the second has the say. *)
Lemma get_spread {V} (a b : Obj.t V) (s : string) :
  NoDup (Obj.keys a) -> NoDup (Obj.keys b) ->
  Obj.get (spread a b) s
  = match Obj.get b s with Some v => Some v | None => Obj.get a s end.
Proof.
  intros Ha Hb. unfold spread. rewrite get_fold_set, reverse_app, get_app.
  rewrite (get_reverse_unique a s Ha), (get_reverse_unique b s Hb).
  cbn [Obj.get]. by destruct (Obj.get b s), (Obj.get a s).
Qed.

Section WithCreators.
Variables Creator Fn : Type.
Variable call : Creator -> string -> Derive.Api -> Fn.

Local Abbreviation injectFunctions := (Derive.injectFunctions Creator Fn call).
Local Abbreviation getAvailableDerives := (getAvailableDerives Creator Fn call).

Lemma injectFunctions_NoDup (instanceId : string) (api : Derive.Api)
    (derives : Derive.DeriveCustom Creator) :
  NoDup (map fst derives) ->
  NoDup (Obj.keys (injectFunctions instanceId api derives)).
Proof.
  intros Hnd. unfold Obj.keys. rewrite DeriveFacts.injectFunctions_keys.
  induction derives as [|[k m] derives IH]; cbn [map fst List.filter]; [constructor|].
  cbn [map fst] in Hnd. apply NoDup_cons in Hnd as [Hk Hnd].
  destruct (Derive.isIncluded api k); [|by apply IH].
  apply NoDup_cons. split; [|by apply IH].
  intros Hin. apply Hk. apply list_elem_of_In, filter_In in Hin as [Hin _].
  by apply list_elem_of_In.
Qed.

(** X20.  Custom derives come on top of the built-in ones, section by
    section: in what [getAvailableDerives] gives, a name that the custom
    derives have and that is included stands for the custom section, whole,
    and the built-in section of that name is gone with all its methods;
    any other name stands for what the built-in derives give it.  The
    names of an object are distinct, and neither object has a name of
    [Object.prototype]. *)
Theorem getAvailableDerives_spec (derive custom : Derive.DeriveCustom Creator)
    (instanceId : string) (api : Derive.Api) (s : string) :
  Derive.ownNames derive -> Derive.ownNames custom ->
  NoDup (map fst derive) -> NoDup (map fst custom) ->
  Obj.get (getAvailableDerives derive instanceId api custom) s
  = if Derive.isIncluded api s
    then match Obj.get custom s with
         | Some methods => Some (Derive.section Creator Fn call instanceId api methods)
         | None => Derive.section Creator Fn call instanceId api <$> Obj.get derive s
         end
    else None.
Proof.
  intros _ _ Hd Hc. unfold AvailableDerives.getAvailableDerives.
  rewrite get_spread by (by apply injectFunctions_NoDup).
  rewrite !DeriveMore.injectFunctions_get.
  destruct (Derive.isIncluded api s); [|done].
  by destruct (Obj.get custom s).
Qed.

End WithCreators.
End AvailableFacts.

(** ** Extrinsic functions from the metadata: names that meet *)

Module FromMetadataMore.
Import FromMetadata ObjFacts FromMetadataFacts.

Section WithMeta.
Variable stringCamelCase : string -> string.
Variable FunctionMetadata : Type.
Variable callName : FunctionMetadata -> string.

Local Abbreviation ModuleMetadata := (ModuleMetadata FunctionMetadata).
Local Abbreviation Method := (Method FunctionMetadata).
Local Abbreviation createUnchecked := (createUnchecked FunctionMetadata).
Local Abbreviation newModule := (newModule stringCamelCase FunctionMetadata callName).
Local Abbreviation fromMetadata := (fromMetadata stringCamelCase FunctionMetadata callName).
Local Abbreviation methodOf := (methodOf stringCamelCase FunctionMetadata callName).

(** A function stays what it is while calls of other names are added. *)
Lemma newModule_keeps (section : string) (sectionIndex from : nat)
    (after : list FunctionMetadata) (acc : Obj.t Method) (method : string) :
  Forall (fun later => methodOf later <> method) after ->
  Obj.get
    (reduceFrom (fun newModule callMetadata methodIndex =>
                   Obj.set newModule (stringCamelCase (callName callMetadata))
                     (createUnchecked section sectionIndex methodIndex callMetadata))
       from after acc)
    method
  = Obj.get acc method.
Proof.
  intros Hafter. revert from acc.
  induction Hafter as [|later after Hne _ IH]; intros from acc; [done|].
  cbn [reduceFrom]. by rewrite IH, get_set_ne.
Qed.

(** The function of a name is the one of the last call of that name,
    bound to the position of that call. *)
Lemma newModule_last (section : string) (sectionIndex from : nat)
    (before after : list FunctionMetadata) (c : FunctionMetadata)
    (acc : Obj.t Method) :
  Forall (fun later => methodOf later <> methodOf c) after ->
  Obj.get
    (reduceFrom (fun newModule callMetadata methodIndex =>
                   Obj.set newModule (stringCamelCase (callName callMetadata))
                     (createUnchecked section sectionIndex methodIndex callMetadata))
       from (before ++ c :: after) acc)
    (methodOf c)
  = Some (createUnchecked section sectionIndex (from + length before) c).
Proof.
  intros Hafter. revert from acc.
  induction before as [|c' before IH]; intros from acc.
  - cbn [app reduceFrom length]. rewrite Nat.add_0_r.
    rewrite newModule_keeps by done. apply get_set_eq.
  - cbn [app reduceFrom length]. rewrite IH. do 2 f_equal. lia.
Qed.

(** X21.  What modules without calls and names that no module has leave
    alone: a name that is not the section name of any module with calls
    stands in the result for what it stood for in the static extrinsics
    the result starts from, for nothing if it stood for nothing there. *)
Theorem fromMetadata_untouched (extrinsics : Obj.t (Obj.t Method))
    (modules : list ModuleMetadata) (section : string) :
  (forall modul, modul ∈ modules -> isSome _ modul = true ->
                 stringCamelCase (name _ modul) <> section) ->
  Obj.get (fromMetadata extrinsics modules) section = Obj.get extrinsics section.
Proof.
  intros Hnone. unfold FromMetadata.fromMetadata, reduce.
  apply fromMetadata_keeps. apply Forall_forall. intros modul Hin.
  apply list_elem_of_In, filter_In in Hin as [Hin Hsome].
  apply Hnone; [by apply list_elem_of_In|done].
Qed.

(** X22.  Names that meet: when modules share a section name the last
    one has the section, and when calls of a module share a name the last
    one has the function; the function is bound to the position of that
    module among the modules with calls and to the position of that call
    among the calls of the module. *)
Theorem fromMetadata_last_wins (extrinsics : Obj.t (Obj.t Method))
    (modules : list ModuleMetadata) (earlier later : list ModuleMetadata)
    (modul : ModuleMetadata) (before after : list FunctionMetadata)
    (c : FunctionMetadata) :
  List.filter (isSome _) modules = earlier ++ modul :: later ->
  calls _ modul = Some (before ++ c :: after) ->
  Forall (fun m => stringCamelCase (name _ m) <> stringCamelCase (name _ modul)) later ->
  Forall (fun c' => methodOf c' <> methodOf c) after ->
  exists functions,
    Obj.get (fromMetadata extrinsics modules) (stringCamelCase (name _ modul))
    = Some functions
    /\ Obj.get functions (methodOf c)
       = Some (createUnchecked (stringCamelCase (name _ modul))
                 (length earlier) (length before) c).
Proof.
  intros Hsplit Hcalls Hlater Hafter.
  eexists. split.
  - unfold FromMetadata.fromMetadata, reduce. rewrite Hsplit.
    by rewrite fromMetadata_from.
  - cbn [Nat.add]. unfold unwrap. rewrite Hcalls.
    unfold FromMetadata.newModule, reduce, default. cbn [from_option id].
    by rewrite (newModule_last _ _ 0).
Qed.

End WithMeta.
End FromMetadataMore.

(** ** Extrinsics: the other forms of the encoding *)
Module ExtrinsicForms.
Import Compact CompactFacts PrefixedFacts Extrinsic ExtrinsicFacts ExtrinsicMore.

Section WithRegistry.
Variable Raw : Type.
Variable rawVersion : Raw -> Z.
Variable rawIsSigned : Raw -> bool.
Variable rawToU8a : Raw -> U8a.
Variable Payload : Type.
Variable createType : TypeName -> Payload + U8a -> bool -> option Z -> result Raw.
Variable wrap : Payload -> Payload.

Local Abbreviation version := (version Raw rawVersion rawIsSigned).
Local Abbreviation type := (type Raw rawVersion).
Local Abbreviation isSigned := (isSigned Raw rawIsSigned).
Local Abbreviation toU8a := (toU8a Raw rawVersion rawIsSigned rawToU8a).
Local Abbreviation toJSON := (toJSON Raw rawVersion rawIsSigned rawToU8a).
Local Abbreviation encodedLength := (encodedLength Raw rawVersion rawIsSigned rawToU8a).
Local Abbreviation length := (length Raw rawVersion rawIsSigned rawToU8a).
Local Abbreviation _newFromValue := (_newFromValue Raw Payload createType).
Local Abbreviation _decodeU8a := (_decodeU8a Raw Payload createType).
Local Abbreviation new := (new Raw Payload createType wrap).

(** The encoding of an extrinsic consists of bytes when that of its inner
    value does. *)
Lemma isBytes_toU8a (e : GenericExtrinsic Raw) (isBare : bool) :
  isBytes (rawToU8a (_raw Raw e)) -> isBytes (toU8a e isBare).
Proof.
  intros Hraw. unfold Extrinsic.toU8a. cbn [app].
  assert (isBytes (u8 (version e) :: rawToU8a (_raw Raw e))) as Hdata.
  { constructor; [|done]. unfold u8. apply Z.mod_pos_bound. lia. }
  destruct isBare; [done|]. unfold compactAddLength. apply Forall_app.
  split; [|done]. apply isBytes_compactToU8a, len_nonneg.
Qed.

(** X23.  The JSON form of an extrinsic is a value its constructor reads
    back: the bytes of the hex string [toJSON()] gives are decoded by
    asking the registry for the class of the format of the extrinsic, with
    its signed flag, its version byte and the bytes of its inner value,
    and the extrinsic made has no kept hash. *)
Theorem new_of_toJSON (e : GenericExtrinsic Raw) (v : option Z) :
  0 <= type e < 128 ->
  isBytes (rawToU8a (_raw Raw e)) ->
  len (rawToU8a (_raw Raw e)) + 1 < 2 ^ 53 ->
  new (VU8a Raw Payload (Utf8.hexToBytes (toJSON e))) v
  = match createType (typeOf (Some (type e))) (inr (rawToU8a (_raw Raw e)))
            (isSigned e) (Some (version e)) with
    | inl error => inl error
    | inr raw => inr (mkExtrinsic Raw raw None)
    end.
Proof.
  intros Ht Hraw Hsafe. unfold Extrinsic.new, Extrinsic.toJSON, Extrinsic.toHex.
  cbn [_decodeExtrinsic].
  rewrite HexFacts.hexToU8a_u8aToHex by (by apply isBytes_toU8a).
  unfold Extrinsic.toU8a. cbn [app].
  rewrite <- (app_nil_r (compactAddLength _)), _decodeU8a_rest by done.
  unfold Extrinsic._newFromValue.
  rewrite (u8_version Raw rawVersion rawIsSigned e Ht).
  destruct (version_byte_splits (type e) (isSigned e) Ht) as [Hf Hs].
  pose proof (proj1 (version_byte_splits (type e) false Ht)) as Hu.
  cbn zeta in Hu. unfold BIT_UNSIGNED in Hu. rewrite Z.lor_0_r in Hu.
  unfold band. fold (version e) in Hf, Hs. rewrite Hs.
  by rewrite !typeOf_spec, Hf, Hu.
Qed.

(** X24.  The bare encoding is not one the decoder reads back: of an
    extrinsic of format 4 the version byte is taken for a length prefix,
    of 1 for an unsigned and of 33 for a signed extrinsic, so that the
    first byte of the inner encoding is taken for the version byte and the
    bytes after it, up to that length, for the inner value; an inner
    encoding that is shorter is refused. *)
Theorem decode_of_bare (e : GenericExtrinsic Raw) (dv : Z) :
  type e = 4 ->
  let inner := rawToU8a (_raw Raw e) in
  let n := if isSigned e then 33 else 1 in
  _decodeU8a (toU8a e true) dv
  = if n <=? len inner
    then _newFromValue (inr (subarray inner 1 n)) (inner !! 0%nat)
    else inl (ExtrinsicLengthRemainder (1 + n) (1 + len inner)).
Proof.
  intros Ht. cbn zeta. unfold Extrinsic.toU8a, Extrinsic.version. cbn [app].
  rewrite Ht. set (inner := rawToU8a (_raw Raw e)).
  pose proof (len_nonneg inner) as Hpos.
  set (n := if isSigned e then 33 else 1).
  assert (u8 (Z.lor 4 (if isSigned e then BIT_SIGNED else BIT_UNSIGNED)) = 4 * n)
    as -> by (unfold n; by destruct (isSigned e)).
  assert (1 <= n <= 33) as Hn by (unfold n; destruct (isSigned e); lia).
  unfold Extrinsic._decodeU8a. rewrite len_cons.
  destruct (Z.eqb_spec (1 + len inner) 0) as [|_]; [lia|].
  assert (compactFromU8a (4 * n :: inner) = (1, n)) as ->
    by (unfold n; by destruct (isSigned e)).
  unfold toNumber.
  destruct (Z.ltb_spec n (2 ^ 53)) as [_|]; [|lia].
  destruct (Z.leb_spec n (len inner)) as [Hle|Hgt].
  - destruct (Z.leb_spec (1 + n) (1 + len inner)) as [_|]; [|lia].
    cbn [negb].
    assert (subarray (4 * n :: inner) 1 (1 + n) = take (Z.to_nat n) inner) as ->.
    { unfold subarray. replace (1 + n - 1) with n by lia.
      change (Z.to_nat 1) with 1%nat. by rewrite skipn_cons, drop_0. }
    assert (len (take (Z.to_nat n) inner) = n) as ->
      by (unfold len in *; rewrite length_take; lia).
    f_equal.
    + f_equal. unfold subarray. rewrite !take_drop_commute, take_take.
      f_equal. f_equal. lia.
    + apply lookup_take_lt. lia.
  - destruct (Z.leb_spec (1 + n) (1 + len inner)) as [|_]; [lia|]. done.
Qed.

(** X25.  The cost of the prefix: the length of an extrinsic is one byte
    more than that of its inner encoding, and its encoded length one byte
    more than its length up to 63 bytes, two up to 16383, four up to
    2^30 - 1. *)
Theorem encodedLength_length (e : GenericExtrinsic Raw) :
  length e <= 1073741823 ->
  length e = 1 + len (rawToU8a (_raw Raw e))
  /\ encodedLength e
     = length e + (if length e <=? 63 then 1 else if length e <=? 16383 then 2 else 4).
Proof.
  unfold Extrinsic.encodedLength, Extrinsic.length, Extrinsic.toU8a. cbn [app].
  rewrite len_cons. intros Hn. split; [done|].
  pose proof (len_nonneg (rawToU8a (_raw Raw e))) as Hpos.
  unfold compactAddLength. rewrite len_app, !len_cons.
  rewrite compactToU8a_len by lia. lia.
Qed.

End WithRegistry.
End ExtrinsicForms.

(** ** The further properties on examples *)

Example decodeText_two_texts :
  Text.decodeText (Text.VU8a [8; 104; 105; 4; 33]) = inr (js "hi", 3)
  /\ Text.decodeText (Text.VU8a (drop 3 [8; 104; 105; 4; 33])) = inr (js "!", 2).
Proof. split; reflexivity. Qed.

Example getAvailableDerives_merged :
  Obj.keys (AvailableDerives.getAvailableDerives unit unit (fun _ _ _ => tt)
              someDerives "id" plainApi customDerives)
  = ["accounts"; "elections"; "tx"; "mine"]%string
  /\ Obj.get (AvailableDerives.getAvailableDerives unit unit (fun _ _ _ => tt)
                someDerives "id" plainApi customDerives) "elections"
     = Some [("custom"%string, tt)].
Proof. split; vm_compute; reflexivity. Qed.

Example eq_hex_string :
  Text.new (Text.VString (js "0x6869")) = inr (Text.mkText (js "hi") 0 None)
  /\ Text.eq (Text.mkText (js "hi") 0 None) (Text.VString (js "0x6869")) = false
  /\ Text.new (Text.VStringObject (js "0x6869"))
     = inr (Text.mkText (js "0x6869") 0 None)
  /\ Text.eq (Text.mkText (js "0x6869") 0 None) (Text.VStringObject (js "0x6869")) = true.
Proof. repeat split. Qed.

Lemma decodeText_consumed_witness :
  (isBytes [8; 104; 105; 4; 33]
   /\ Text.decodeText (Text.VU8a [8; 104; 105; 4; 33]) = inr (js "hi", 3))
  /\ (([8; 104; 105; 4; 33] = [] /\ 3 = 0 /\ js "hi" = [])
      \/ (1 <= (Compact.compactFromU8a [8; 104; 105; 4; 33]).1 <= 3
          /\ 3 <= len [8; 104; 105; 4; 33]
          /\ 3 - (Compact.compactFromU8a [8; 104; 105; 4; 33]).1 <= Text.MAX_LENGTH
          /\ js "hi" = u8aToString
                         (subarray [8; 104; 105; 4; 33]
                            (Compact.compactFromU8a [8; 104; 105; 4; 33]).1 3))).
Proof.
  assert (isBytes [8; 104; 105; 4; 33]) as H1 by (repeat constructor; lia).
  assert (Text.decodeText (Text.VU8a [8; 104; 105; 4; 33]) = inr (js "hi", 3)) as H2
    by reflexivity.
  split; [by split|].
  exact (proj1 (TextMore.decodeText_consumed [8; 104; 105; 4; 33] (js "hi") 3 H1) H2).
Defined.

Lemma decodeText_then_rest_witness :
  len (stringToU8a (Text.str hello)) <= Text.MAX_LENGTH
  /\ Text.decodeText (Text.VU8a (Text.toU8a hello false ++ [4; 33]))
     = inr (u8aToString (stringToU8a (Text.str hello)), len (Text.toU8a hello false))
  /\ drop (Z.to_nat (len (Text.toU8a hello false))) (Text.toU8a hello false ++ [4; 33])
     = [4; 33].
Proof.
  assert (len (stringToU8a (Text.str hello)) <= Text.MAX_LENGTH) as H
    by (vm_compute; discriminate).
  split; [exact H|].
  exact (TextMore.decodeText_then_rest hello [4; 33] H).
Defined.

Lemma encodedLength_prefix_witness :
  len (Text.toU8a hello true) <= 1073741823
  /\ Text.encodedLength hello
     = len (Text.toU8a hello true)
       + (if len (Text.toU8a hello true) <=? 63 then 1
          else if len (Text.toU8a hello true) <=? 16383 then 2 else 4)
  /\ 1 <= Text.encodedLength hello - len (Text.toU8a hello true) <= 4.
Proof.
  assert (len (Text.toU8a hello true) <= 1073741823) as H
    by (vm_compute; discriminate).
  split; [exact H|].
  exact (TextMore.encodedLength_prefix hello H).
Defined.

Lemma new_of_toHex_witness :
  (isBytes (stringToU8a (Text.str hello))
   /\ u8aToString (stringToU8a (Text.str hello)) = Text.str hello)
  /\ Text.new (Text.VString (Text.toHex hello))
     = inr (Text.mkText (Text.str hello) 0 None).
Proof.
  assert (isBytes (stringToU8a (Text.str hello))) as H1
    by (vm_compute; repeat constructor; discriminate).
  assert (u8aToString (stringToU8a (Text.str hello)) = Text.str hello) as H2
    by reflexivity.
  split; [by split|].
  exact (proj1 (HexFacts.new_of_toHex hello H1 H2)).
Defined.

Lemma decodeText_refuses_truncated_witness :
  (len (stringToU8a (Text.str hello)) < 2 ^ 53
   /\ (0 < 4 < length (Text.toU8a hello false))%nat)
  /\ exists error,
       Text.decodeText (Text.VU8a (take 4 (Text.toU8a hello false))) = inl error.
Proof.
  assert (len (stringToU8a (Text.str hello)) < 2 ^ 53) as H1 by reflexivity.
  assert (0 < 4 < length (Text.toU8a hello false))%nat as H2 by (vm_compute; lia).
  split; [by split|].
  exact (TextTruncated.decodeText_refuses_truncated hello 4 H1 H2).
Defined.

Lemma tooLong_length : len (stringToU8a (Text.str tooLong)) = 131073.
Proof.
  unfold tooLong. cbn [Text.str stringToU8a Utf8.util].
  rewrite Utf8Facts.encode_ascii by (apply Utf8Facts.isAscii_repeat; lia).
  unfold len. rewrite repeat_length. apply Z2Nat.id. lia.
Qed.

Lemma toU8a_too_long_witness :
  (Text.MAX_LENGTH < len (stringToU8a (Text.str tooLong))
   /\ len (stringToU8a (Text.str tooLong)) < 2 ^ 53)
  /\ Text.new (Text.VU8a (Text.toU8a tooLong false))
     = inl (TextLengthExceeds (len (stringToU8a (Text.str tooLong)))).
Proof.
  pose proof tooLong_length as Hlen.
  assert (Text.MAX_LENGTH < len (stringToU8a (Text.str tooLong))) as H1.
  { rewrite Hlen. reflexivity. }
  assert (len (stringToU8a (Text.str tooLong)) < 2 ^ 53) as H2.
  { rewrite Hlen. reflexivity. }
  split; [split; [exact H1|exact H2]|].
  exact (TextMore.toU8a_too_long tooLong H1 H2).
Defined.

Lemma decodeMetadata_success_witness :
  (Metadata.arrayOf unit (Metadata.VU8a [0x6d; 0x65; 0x74; 0x61; 10; 0])
   = Some [0x6d; 0x65; 0x74; 0x61; 10; 0]
   /\ Metadata.toU8a unit Metadata.EMPTY_METADATA
        (Metadata.VU8a [0x6d; 0x65; 0x74; 0x61; 10; 0])
      = inr [0x6d; 0x65; 0x74; 0x61; 10; 0]
   /\ onlyV10 [0x6d; 0x65; 0x74; 0x61; 10; 0] = inr [0x6d; 0x65; 0x74; 0x61; 10; 0])
  /\ Metadata.decodeMetadata U8a unit onlyV10 noObjects Metadata.EMPTY_METADATA
       (Metadata.VU8a [0x6d; 0x65; 0x74; 0x61; 10; 0])
     = Metadata.mkOutcome (Some (inr [0x6d; 0x65; 0x74; 0x61; 10; 0]))
         (Metadata.mkStore Metadata.EMPTY_METADATA [0x6d; 0x65; 0x74; 0x61; 10; 0])
         [[0x6d; 0x65; 0x74; 0x61; 10; 0]].
Proof.
  assert (Metadata.arrayOf unit (Metadata.VU8a [0x6d; 0x65; 0x74; 0x61; 10; 0])
          = Some [0x6d; 0x65; 0x74; 0x61; 10; 0]) as H1 by reflexivity.
  assert (Metadata.toU8a unit Metadata.EMPTY_METADATA
            (Metadata.VU8a [0x6d; 0x65; 0x74; 0x61; 10; 0])
          = inr [0x6d; 0x65; 0x74; 0x61; 10; 0]) as H2 by reflexivity.
  assert (onlyV10 [0x6d; 0x65; 0x74; 0x61; 10; 0]
          = inr [0x6d; 0x65; 0x74; 0x61; 10; 0]) as H3 by reflexivity.
  split; [split; [exact H1|split; [exact H2|exact H3]]|].
  exact (MetadataMore.decodeMetadata_success U8a unit onlyV10 noObjects
           Metadata.EMPTY_METADATA (Metadata.VU8a [0x6d; 0x65; 0x74; 0x61; 10; 0])
           [0x6d; 0x65; 0x74; 0x61; 10; 0] [0x6d; 0x65; 0x74; 0x61; 10; 0]
           [0x6d; 0x65; 0x74; 0x61; 10; 0] H1 H2 H3).
Defined.

Lemma emptyMetadata_rewritten_witness :
  (Metadata.isEmptyValue unit Metadata.VUndefined = true
   /\ Metadata.isEmptyValue unit (Metadata.VU8a []) = true
   /\ Metadata.EMPTY_METADATA !! Metadata.VERSION_IDX = Some 9
   /\ onlyV10 Metadata.EMPTY_METADATA = inl (DecodeFailure "unsupported version"))
  /\ Metadata.emptyMetadata
       (Metadata.store
          (Metadata.decodeMetadata U8a unit onlyV10 noObjects Metadata.EMPTY_METADATA
             Metadata.VUndefined))
     = [0x6d; 0x65; 0x74; 0x61; 10]
  /\ Metadata.toU8a unit
       (Metadata.emptyMetadata
          (Metadata.store
             (Metadata.decodeMetadata U8a unit onlyV10 noObjects Metadata.EMPTY_METADATA
                Metadata.VUndefined)))
       (Metadata.VU8a [])
     = inr [0x6d; 0x65; 0x74; 0x61; 10].
Proof.
  assert (Metadata.isEmptyValue unit Metadata.VUndefined = true) as H1 by reflexivity.
  assert (Metadata.isEmptyValue unit (Metadata.VU8a []) = true) as H2 by reflexivity.
  assert (Metadata.EMPTY_METADATA !! Metadata.VERSION_IDX = Some 9) as H3 by reflexivity.
  assert (onlyV10 Metadata.EMPTY_METADATA = inl (DecodeFailure "unsupported version"))
    as H4 by reflexivity.
  split; [split; [exact H1|split; [exact H2|split; [exact H3|exact H4]]]|].
  pose proof (MetadataMore.emptyMetadata_rewritten U8a unit onlyV10 noObjects
                Metadata.EMPTY_METADATA Metadata.VUndefined (Metadata.VU8a [])
                (DecodeFailure "unsupported version") H1 H2 H3 H4) as H.
  exact (conj (proj1 H) (proj2 (proj2 (proj2 H)))).
Defined.

Lemma version_splits_witness :
  0 <= Extrinsic.type RawModel modelVersion unsignedModel < 128
  /\ 0 <= Extrinsic.version RawModel modelVersion modelIsSigned unsignedModel < 256
  /\ Z.land (Extrinsic.version RawModel modelVersion modelIsSigned unsignedModel)
       Extrinsic.UNMASK_VERSION
     = Extrinsic.type RawModel modelVersion unsignedModel
  /\ (Z.land (Extrinsic.version RawModel modelVersion modelIsSigned unsignedModel)
        Extrinsic.BIT_SIGNED =? Extrinsic.BIT_SIGNED)
     = Extrinsic.isSigned RawModel modelIsSigned unsignedModel.
Proof.
  assert (0 <= Extrinsic.type RawModel modelVersion unsignedModel < 128) as H
    by (vm_compute; split; [discriminate|reflexivity]).
  split; [exact H|].
  exact (ExtrinsicMore.version_splits RawModel modelVersion modelIsSigned
           unsignedModel H).
Defined.

Lemma decode_of_encode_witness :
  (0 <= Extrinsic.type RawModel modelVersion unsignedModel < 128
   /\ len (modelBytes (Extrinsic._raw RawModel unsignedModel)) + 1 < 2 ^ 53)
  /\ Extrinsic._decodeU8a RawModel U8a createModel
       (Extrinsic.toU8a RawModel modelVersion modelIsSigned modelBytes unsignedModel false)
       4
     = createModel
         (Extrinsic.typeOf (Some (Extrinsic.type RawModel modelVersion unsignedModel)))
         (inr (modelBytes (Extrinsic._raw RawModel unsignedModel)))
         (Extrinsic.isSigned RawModel modelIsSigned unsignedModel)
         (Some (Extrinsic.version RawModel modelVersion modelIsSigned unsignedModel)).
Proof.
  assert (0 <= Extrinsic.type RawModel modelVersion unsignedModel < 128) as H1
    by (vm_compute; split; [discriminate|reflexivity]).
  assert (len (modelBytes (Extrinsic._raw RawModel unsignedModel)) + 1 < 2 ^ 53) as H2
    by reflexivity.
  split; [split; [exact H1|exact H2]|].
  exact (ExtrinsicMore.decode_of_encode RawModel modelVersion modelIsSigned modelBytes
           U8a createModel unsignedModel 4 H1 H2).
Defined.

Lemma decode_ignores_rest_witness :
  len (modelBytes (Extrinsic._raw RawModel unsignedModel)) + 1 < 2 ^ 53
  /\ Extrinsic._decodeU8a RawModel U8a createModel
       (Extrinsic.toU8a RawModel modelVersion modelIsSigned modelBytes unsignedModel false
        ++ [255; 255])
       4
     = Extrinsic._decodeU8a RawModel U8a createModel
         (Extrinsic.toU8a RawModel modelVersion modelIsSigned modelBytes unsignedModel false)
         4.
Proof.
  assert (len (modelBytes (Extrinsic._raw RawModel unsignedModel)) + 1 < 2 ^ 53) as H
    by reflexivity.
  split; [exact H|].
  exact (ExtrinsicMore.decode_ignores_rest RawModel modelVersion modelIsSigned modelBytes
           U8a createModel unsignedModel [255; 255] 4 H).
Defined.

Lemma decode_refuses_truncated_witness :
  (len (modelBytes (Extrinsic._raw RawModel unsignedModel)) + 1 < 2 ^ 53
   /\ (0 < 3 < List.length
                 (Extrinsic.toU8a RawModel modelVersion modelIsSigned modelBytes
                    unsignedModel false))%nat)
  /\ exists error,
       Extrinsic._decodeU8a RawModel U8a createModel
         (take 3 (Extrinsic.toU8a RawModel modelVersion modelIsSigned modelBytes
                    unsignedModel false))
         4
       = inl error.
Proof.
  assert (len (modelBytes (Extrinsic._raw RawModel unsignedModel)) + 1 < 2 ^ 53) as H1
    by reflexivity.
  assert (0 < 3 < List.length
                    (Extrinsic.toU8a RawModel modelVersion modelIsSigned modelBytes
                       unsignedModel false))%nat as H2
    by (vm_compute; lia).
  split; [split; [exact H1|exact H2]|].
  exact (ExtrinsicMore.decode_refuses_truncated RawModel modelVersion modelIsSigned
           modelBytes U8a createModel unsignedModel 3 4 H1 H2).
Defined.

Lemma customDerives_ownNames : Derive.ownNames customDerives.
Proof.
  unfold Derive.ownNames, Derive.inherited. cbn [map fst customDerives].
  repeat constructor; rewrite !elem_of_cons, elem_of_nil; intros H;
    intuition discriminate.
Qed.

Lemma injectFunctions_spec_witness :
  Derive.ownNames someDerives
  /\ (("council"%string
         ∈ map fst (Derive.injectFunctions unit unit (fun _ _ _ => tt) "id" aliasApi
                      someDerives))
      <-> ("council"%string ∈ map fst someDerives)
          /\ Derive.available aliasApi "council").
Proof.
  pose proof someDerives_ownNames as H.
  split; [exact H|].
  exact (proj1 (DeriveMore.injectFunctions_spec unit unit (fun _ _ _ => tt) "id"
                  aliasApi someDerives "council" H)).
Defined.

Lemma injectFunctions_monotone_witness :
  (Derive.ownNames someDerives
   /\ Derive.queryKeys plainApi ⊆ Derive.queryKeys richerApi
   /\ Derive.specName richerApi = Derive.specName plainApi
   /\ (forall name module, Derive.registryModuleInstances richerApi name module
                           = Derive.registryModuleInstances plainApi name module)
   /\ ("elections"%string
         ∈ map fst (Derive.injectFunctions unit unit (fun _ _ _ => tt) "id" plainApi
                      someDerives)))
  /\ ("elections"%string
        ∈ map fst (Derive.injectFunctions unit unit (fun _ _ _ => tt) "id" richerApi
                     someDerives)).
Proof.
  pose proof someDerives_ownNames as H0.
  assert (Derive.queryKeys plainApi ⊆ Derive.queryKeys richerApi) as H1.
  { intros k. cbn. rewrite !elem_of_cons. tauto. }
  assert (Derive.specName richerApi = Derive.specName plainApi) as H2 by reflexivity.
  assert (forall name module, Derive.registryModuleInstances richerApi name module
                              = Derive.registryModuleInstances plainApi name module) as H3
    by reflexivity.
  assert ("elections"%string
            ∈ map fst (Derive.injectFunctions unit unit (fun _ _ _ => tt) "id" plainApi
                         someDerives)) as H4
    by (vm_compute; repeat constructor).
  split; [split; [exact H0|split; [exact H1|split; [exact H2|split; [exact H3|exact H4]]]]|].
  exact (DeriveMore.injectFunctions_monotone unit unit (fun _ _ _ => tt) "id" plainApi
           richerApi someDerives "elections" H0 H1 H2 H3 H4).
Defined.

Lemma getAvailableDerives_spec_witness :
  (Derive.ownNames someDerives /\ Derive.ownNames customDerives
   /\ NoDup (map fst someDerives) /\ NoDup (map fst customDerives))
  /\ Obj.get (AvailableDerives.getAvailableDerives unit unit (fun _ _ _ => tt)
                someDerives "id" plainApi customDerives) "elections"
     = if Derive.isIncluded plainApi "elections"
       then match Obj.get customDerives "elections" with
            | Some methods =>
                Some (Derive.section unit unit (fun _ _ _ => tt) "id" plainApi methods)
            | None =>
                Derive.section unit unit (fun _ _ _ => tt) "id" plainApi
                  <$> Obj.get someDerives "elections"
            end
       else None.
Proof.
  assert (NoDup (map fst someDerives)) as H1.
  { cbn. repeat constructor; rewrite ?elem_of_cons, ?elem_of_nil;
      intros H; intuition discriminate. }
  assert (NoDup (map fst customDerives)) as H2.
  { cbn. repeat constructor; rewrite ?elem_of_cons, ?elem_of_nil;
      intros H; intuition discriminate. }
  pose proof someDerives_ownNames as H3.
  pose proof customDerives_ownNames as H4.
  split; [split; [exact H3|split; [exact H4|split; [exact H1|exact H2]]]|].
  exact (AvailableFacts.getAvailableDerives_spec unit unit (fun _ _ _ => tt)
           someDerives customDerives "id" plainApi "elections" H3 H4 H1 H2).
Defined.

Lemma fromMetadata_untouched_witness :
  (forall modul, modul ∈ [systemModule; timestampModule; balancesModule] ->
                 FromMetadata.isSome string modul = true ->
                 id (FromMetadata.name string modul) <> "system"%string)
  /\ Obj.get
       (FromMetadata.fromMetadata id string id []
          [systemModule; timestampModule; balancesModule])
       "system"
     = Obj.get [] "system".
Proof.
  assert (forall modul, modul ∈ [systemModule; timestampModule; balancesModule] ->
                        FromMetadata.isSome string modul = true ->
                        id (FromMetadata.name string modul) <> "system"%string) as H.
  { intros modul Hin Hsome. rewrite !elem_of_cons, elem_of_nil in Hin.
    destruct Hin as [->|[->|[->|[]]]]; discriminate. }
  split; [exact H|].
  exact (FromMetadataMore.fromMetadata_untouched id string id []
           [systemModule; timestampModule; balancesModule] "system" H).
Defined.

Lemma fromMetadata_last_wins_witness :
  (List.filter (FromMetadata.isSome string)
     [utilityAgain; systemModule; utilityModule; balancesModule]
   = [utilityAgain] ++ utilityModule :: [balancesModule]
   /\ FromMetadata.calls string utilityModule
      = Some (["batch"%string; "asDerivative"%string] ++ "batch"%string :: [])
   /\ Forall (fun m => id (FromMetadata.name string m)
                       <> id (FromMetadata.name string utilityModule))
        [balancesModule]
   /\ Forall (fun c' => FromMetadata.methodOf id string id c'
                        <> FromMetadata.methodOf id string id "batch"%string) [])
  /\ exists functions,
       Obj.get
         (FromMetadata.fromMetadata id string id []
            [utilityAgain; systemModule; utilityModule; balancesModule])
         (id (FromMetadata.name string utilityModule))
       = Some functions
       /\ Obj.get functions (FromMetadata.methodOf id string id "batch"%string)
          = Some (FromMetadata.createUnchecked string
                    (id (FromMetadata.name string utilityModule))
                    (length [utilityAgain]) (length ["batch"; "asDerivative"]%string)
                    "batch"%string).
Proof.
  assert (List.filter (FromMetadata.isSome string)
            [utilityAgain; systemModule; utilityModule; balancesModule]
          = [utilityAgain] ++ utilityModule :: [balancesModule]) as H1 by reflexivity.
  assert (FromMetadata.calls string utilityModule
          = Some (["batch"%string; "asDerivative"%string] ++ "batch"%string :: [])) as H2 by reflexivity.
  assert (Forall (fun m => id (FromMetadata.name string m)
                           <> id (FromMetadata.name string utilityModule))
            [balancesModule]) as H3 by (repeat constructor; discriminate).
  assert (Forall (fun c' => FromMetadata.methodOf id string id c'
                            <> FromMetadata.methodOf id string id "batch"%string) [])
    as H4 by constructor.
  split; [split; [exact H1|split; [exact H2|split; [exact H3|exact H4]]]|].
  exact (FromMetadataMore.fromMetadata_last_wins id string id []
           [utilityAgain; systemModule; utilityModule; balancesModule]
           [utilityAgain] [balancesModule] utilityModule
           ["batch"; "asDerivative"]%string [] "batch"%string H1 H2 H3 H4).
Defined.

Lemma new_of_toJSON_witness :
  (0 <= Extrinsic.type RawModel modelVersion unsignedModel < 128
   /\ isBytes (modelBytes (Extrinsic._raw RawModel unsignedModel))
   /\ len (modelBytes (Extrinsic._raw RawModel unsignedModel)) + 1 < 2 ^ 53)
  /\ Extrinsic.new RawModel U8a createModel id
       (Extrinsic.VU8a RawModel U8a
          (Utf8.hexToBytes
             (Extrinsic.toJSON RawModel modelVersion modelIsSigned modelBytes unsignedModel)))
       None
     = inr unsignedModel.
Proof.
  assert (0 <= Extrinsic.type RawModel modelVersion unsignedModel < 128) as H1
    by (vm_compute; split; [discriminate|reflexivity]).
  assert (isBytes (modelBytes (Extrinsic._raw RawModel unsignedModel))) as H2
    by (repeat constructor; discriminate).
  assert (len (modelBytes (Extrinsic._raw RawModel unsignedModel)) + 1 < 2 ^ 53) as H3
    by reflexivity.
  split; [split; [exact H1|split; [exact H2|exact H3]]|].
  exact (ExtrinsicForms.new_of_toJSON RawModel modelVersion modelIsSigned modelBytes
           U8a createModel id unsignedModel None H1 H2 H3).
Defined.

Lemma decode_of_bare_witness :
  Extrinsic.type RawModel modelVersion unsignedModel = 4
  /\ Extrinsic._decodeU8a RawModel U8a createModel
       (Extrinsic.toU8a RawModel modelVersion modelIsSigned modelBytes unsignedModel true) 4
     = inr (mkRaw Extrinsic.ExtrinsicUnknown 0 false []).
Proof.
  assert (Extrinsic.type RawModel modelVersion unsignedModel = 4) as H by reflexivity.
  split; [exact H|].
  exact (ExtrinsicForms.decode_of_bare RawModel modelVersion modelIsSigned modelBytes
           U8a createModel unsignedModel 4 H).
Defined.

Lemma encodedLength_length_witness :
  Extrinsic.length RawModel modelVersion modelIsSigned modelBytes unsignedModel
  <= 1073741823
  /\ Extrinsic.length RawModel modelVersion modelIsSigned modelBytes unsignedModel = 4
  /\ Extrinsic.encodedLength RawModel modelVersion modelIsSigned modelBytes unsignedModel
     = 5.
Proof.
  assert (Extrinsic.length RawModel modelVersion modelIsSigned modelBytes unsignedModel
          <= 1073741823) as H by (vm_compute; discriminate).
  split; [exact H|].
  exact (ExtrinsicForms.encodedLength_length RawModel modelVersion modelIsSigned
           modelBytes unsignedModel H).
Defined.

Example hash_stale :
  Extrinsic.hashOf RawModel modelVersion modelIsSigned modelBytes hashModel oneSigned 1
  = Some [5; 16; 4]
  /\ hashModel <$> Extrinsic.encodingOf RawModel modelVersion modelIsSigned modelBytes
                     oneSigned 1
     = Some [7; 24; 132]
  /\ Extrinsic.hashOf RawModel modelVersion modelIsSigned modelBytes hashModel oneSigned 0
     = Some [7; 24; 132].
Proof. repeat split. Qed.

Lemma hash_current_witness :
  ((forall h, Extrinsic.holders RawModel oneWorld !! 0%nat = Some h ->
              Extrinsic.kept h = None)
   /\ Extrinsic.leads RawModel modelVersion modelIsSigned modelBytes hashModel
        U8a U8a U8a signModel signModel signModel 0 oneWorld oneSigned
   /\ Extrinsic.view RawModel oneSigned 0 = Some signedModel)
  /\ Extrinsic.hashOf RawModel modelVersion modelIsSigned modelBytes hashModel oneSigned 0
     = Some (hashModel
               (Extrinsic.toU8a RawModel modelVersion modelIsSigned modelBytes
                  signedModel false)).
Proof.
  assert (forall h, Extrinsic.holders RawModel oneWorld !! 0%nat = Some h ->
                    Extrinsic.kept h = None) as H1
    by (by intros h [= <-]).
  assert (Extrinsic.leads RawModel modelVersion modelIsSigned modelBytes hashModel
            U8a U8a U8a signModel signModel signModel 0 oneWorld oneSigned) as H2.
  { eapply Extrinsic.leads_call
      with (c := Extrinsic.OnExtrinsic U8a U8a U8a 0 (Extrinsic.CallSign U8a U8a U8a [7; 7]))
           (w' := twoHashed); [|by intros _ Hne|reflexivity].
    eapply Extrinsic.leads_call
      with (c := Extrinsic.OnExtrinsic U8a U8a U8a 1 (Extrinsic.CallHash U8a U8a U8a))
           (w' := Extrinsic.mkWorld RawModel (Extrinsic.inners RawModel oneWorld)
                    [Extrinsic.mkHolder 0 (Some [5; 16; 4]); Extrinsic.mkHolder 0 None]);
      [|by intros Hs|reflexivity].
    eapply Extrinsic.leads_call
      with (c := Extrinsic.NewFrom U8a U8a U8a 0)
           (w' := Extrinsic.mkWorld RawModel (Extrinsic.inners RawModel oneWorld)
                    [Extrinsic.mkHolder 0 (Some [5; 16; 4])]);
      [|exact I|reflexivity].
    eapply Extrinsic.leads_call
      with (c := Extrinsic.OnExtrinsic U8a U8a U8a 0 (Extrinsic.CallHash U8a U8a U8a))
           (w' := oneWorld);
      [|by intros Hs|reflexivity].
    apply Extrinsic.leads_here. }
  assert (Extrinsic.view RawModel oneSigned 0 = Some signedModel) as H3 by reflexivity.
  split; [split; [exact H1|split; [exact H2|exact H3]]|].
  exact (proj1 (ExtrinsicMore.hash_current RawModel modelVersion modelIsSigned modelBytes
                  hashModel U8a U8a U8a signModel signModel signModel
                  0%nat oneWorld oneSigned signedModel H1 H2 H3)).
Defined.

Lemma hash_kept_by_other_witness :
  (Extrinsic.holders RawModel twoHashed !! 1%nat = Some (Extrinsic.mkHolder 0 (Some [5; 16; 4]))
   /\ Extrinsic.holders RawModel twoHashed !! 0%nat = Some (Extrinsic.mkHolder 0 (Some [5; 16; 4]))
   /\ 0%nat <> 1%nat
   /\ Extrinsic.act RawModel modelVersion modelIsSigned modelBytes hashModel
        U8a U8a U8a signModel signModel signModel twoHashed
        (Extrinsic.OnExtrinsic U8a U8a U8a 0 (Extrinsic.CallSign U8a U8a U8a [7; 7]))
      = Some (oneSigned, Extrinsic.Returned)
   /\ Extrinsic.view RawModel oneSigned 0 = Some signedModel)
  /\ Extrinsic.hashOf RawModel modelVersion modelIsSigned modelBytes hashModel oneSigned 1
     = Some [5; 16; 4]
  /\ Extrinsic.encodingOf RawModel modelVersion modelIsSigned modelBytes oneSigned 1
     = Some (Extrinsic.toU8a RawModel modelVersion modelIsSigned modelBytes
               signedModel false).
Proof.
  assert (Extrinsic.holders RawModel twoHashed !! 1%nat
          = Some (Extrinsic.mkHolder 0 (Some [5; 16; 4]))) as H1 by reflexivity.
  assert (Extrinsic.holders RawModel twoHashed !! 0%nat
          = Some (Extrinsic.mkHolder 0 (Some [5; 16; 4]))) as H2 by reflexivity.
  assert (0%nat <> 1%nat) as H3 by discriminate.
  assert (Extrinsic.act RawModel modelVersion modelIsSigned modelBytes hashModel
            U8a U8a U8a signModel signModel signModel twoHashed
            (Extrinsic.OnExtrinsic U8a U8a U8a 0 (Extrinsic.CallSign U8a U8a U8a [7; 7]))
          = Some (oneSigned, Extrinsic.Returned)) as H4 by reflexivity.
  assert (Extrinsic.view RawModel oneSigned 0 = Some signedModel) as H5 by reflexivity.
  split; [split; [exact H1|split; [exact H2|split; [exact H3|split; [exact H4|exact H5]]]]|].
  exact (ExtrinsicMore.hash_kept_by_other RawModel modelVersion modelIsSigned modelBytes
           hashModel U8a U8a U8a signModel signModel signModel
           twoHashed oneSigned 1%nat 0%nat
           (Extrinsic.mkHolder 0 (Some [5; 16; 4])) (Extrinsic.mkHolder 0 (Some [5; 16; 4]))
           [5; 16; 4] (Extrinsic.CallSign U8a U8a U8a [7; 7]) signedModel
           H1 H2 H3 eq_refl eq_refl H4 H5).
Defined.
